(** * Knowledge-base subsystem of the documentation agent

    A shallow embedding of the chunker, the knowledge store, the context
    retriever and the incremental updater ([AIService] and
    [WebhookDocUpdateAgent]), with the properties the specification states
    about them.

    JavaScript strings are sequences of UTF-16 code units, so a string is a
    [list N]; [length] is the [.length] of the source.  Numbers that are
    sizes and indices are [nat] or [Z]; embedding components and
    similarities are IEEE binary64 values ([float]). *)

From Stdlib Require Import String Ascii DecimalString.
From Stdlib Require Import List ZArith NArith Bool Lia Floats.
From Stdlib Require Import Permutation Sorted.
Import ListNotations.

(* ################################################################## *)
(** * Part I: the program *)
(* ################################################################## *)

(* ================================================================== *)
(** * JavaScript strings *)
(* ================================================================== *)

Definition jsstring := list N.

(** An ASCII literal as a JavaScript string. *)
Definition lit (s : string) : jsstring :=
  map N_of_ascii (list_ascii_of_string s).

Definition LF : N := 10%N.
Definition CR : N := 13%N.
Definition SPACE : N := 32%N.

(** [WhiteSpace] and [LineTerminator] code units: what [String.prototype.trim]
    strips and what [\s] matches. *)
Definition isWhiteSpace (c : N) : bool :=
  existsb (N.eqb c)
    [9; 10; 11; 12; 13; 32; 160; 5760; 8232; 8233; 8239; 8287; 12288; 65279]%N
  || ((8192 <=? c)%N && (c <=? 8202)%N).

Fixpoint dropWhile {A} (p : A -> bool) (l : list A) : list A :=
  match l with
  | [] => []
  | x :: l' => if p x then dropWhile p l' else l
  end.

Definition trimStart (s : jsstring) : jsstring := dropWhile isWhiteSpace s.
Definition trimEnd (s : jsstring) : jsstring := rev (dropWhile isWhiteSpace (rev s)).

(** [s.trim()] *)
Definition trim (s : jsstring) : jsstring := trimStart (trimEnd s).

(** [s.substring(a, b)]: the arguments are clamped to the string and swapped
    when out of order. *)
Definition substring (s : jsstring) (a b : nat) : jsstring :=
  firstn (Nat.max a b - Nat.min a b) (skipn (Nat.min a b) s).

(** [s.substring(a)] *)
Definition substring_from (s : jsstring) (a : nat) : jsstring := skipn a s.

(** [text.split(/\r?\n/)]: the separator is a line feed, together with the
    carriage return just before it when there is one.  The result is never
    empty. *)
Fixpoint split_lines (s : jsstring) : list jsstring :=
  match s with
  | [] => [[]]
  | c :: s' =>
      if (c =? LF)%N then [] :: split_lines s'
      else
        match s' with
        | d :: s'' =>
            if ((c =? CR)%N && (d =? LF)%N)%bool then [] :: split_lines s''
            else match split_lines s' with
                 | l :: ls => (c :: l) :: ls
                 | [] => [[c]]
                 end
        | [] => [[c]]
        end
  end.

(** [prefix] at the head of [s]: what is left of [s] after it. *)
Fixpoint starts_with (prefix s : jsstring) : option jsstring :=
  match prefix, s with
  | [], _ => Some s
  | p :: prefix', c :: s' => if (p =? c)%N then starts_with prefix' s' else None
  | _ :: _, [] => None
  end.

(** [hay.includes(needle)] *)
Fixpoint includes (hay needle : jsstring) : bool :=
  match starts_with needle hay with
  | Some _ => true
  | None => match hay with
            | [] => false
            | _ :: hay' => includes hay' needle
            end
  end.

Definition jsstring_eqb (a b : jsstring) : bool :=
  if list_eq_dec N.eq_dec a b then true else false.

(** [array.includes(x)] on an array of strings. *)
Definition array_includes (xs : list jsstring) (x : jsstring) : bool :=
  existsb (jsstring_eqb x) xs.

(** Decimal rendering of a count inside a template literal. *)
Definition decimal (n : nat) : jsstring :=
  lit (NilEmpty.string_of_uint (Nat.to_uint n)).

(** The code units of [s] that are not white space, in order. *)
Definition strip_ws (s : jsstring) : jsstring :=
  filter (fun c => negb (isWhiteSpace c)) s.

(** [x] occurs in [s] as a contiguous run of code units. *)
Definition occurs_in (x s : jsstring) : Prop :=
  exists before after, s = before ++ x ++ after.

(* ================================================================== *)
(** * The declaration-boundary pattern of [chunkText]

    [functionRegex], with the flag [g], is the sequence of
    - an optional block comment: slash star star, any code units taken
      lazily, star slash, then white space taken greedily;
    - an optional [export] followed by white space;
    - an optional [async] followed by white space;
    - one of [function], [class], [const], [let], [var];
    - any code units taken lazily up to a position followed by an opening
      brace (a lookahead: the brace is not part of the match).

    The matcher below follows the backtracking order of the pattern.  A
    greedy run of white space is only tried at its full length: every item
    that can follow it starts with a letter, so giving back white space never
    lets the rest match. *)
(* ================================================================== *)

Module Pattern.

(** Length of the leading run of white space, and what follows it. *)
Fixpoint span_ws (s : jsstring) : nat * jsstring :=
  match s with
  | c :: s' => if isWhiteSpace c
               then let '(n, r) := span_ws s' in (S n, r)
               else (0, s)
  | [] => (0, [])
  end.

(** The final lazy run: the shortest one that ends just before an
    opening brace; its length. *)
Fixpoint lazy_to_brace (s : jsstring) : option nat :=
  match s with
  | [] => None
  | c :: s' => if (c =? 123)%N then Some 0
               else option_map S (lazy_to_brace s')
  end.

Definition orelse {A} (a b : option A) : option A :=
  match a with Some _ => a | None => b end.

Definition keywords : list jsstring :=
  [lit "function"; lit "class"; lit "const"; lit "let"; lit "var"].

(** The keyword alternation followed by the final lazy run. *)
Definition keyword_rest (s : jsstring) : option nat :=
  fold_right
    (fun kw alt =>
       orelse
         match starts_with kw s with
         | Some r => option_map (Nat.add (length kw)) (lazy_to_brace r)
         | None => None
         end
         alt)
    None keywords.

(** An optional [word] with its white space, followed by [k]. *)
Definition optional_word (word : jsstring) (k : jsstring -> option nat)
           (s : jsstring) : option nat :=
  orelse
    match starts_with word s with
    | Some r =>
        let '(n, r') := span_ws r in
        if (0 <? n)%nat
        then option_map (fun m => length word + n + m)%nat (k r')
        else None
    | None => None
    end
    (k s).

Definition after_comment : jsstring -> option nat :=
  optional_word (lit "export") (optional_word (lit "async") keyword_rest).

(** Inside the block comment: the lazy run stops at the first star slash
    after which the rest of the pattern matches. *)
Fixpoint comment_body (s : jsstring) (consumed : nat) : option nat :=
  orelse
    match starts_with (lit "*/") s with
    | Some r =>
        let '(n, r') := span_ws r in
        option_map (fun m => consumed + 2 + n + m)%nat (after_comment r')
    | None => None
    end
    match s with
    | [] => None
    | _ :: s' => comment_body s' (S consumed)
    end.

(** The pattern anchored at the head of [s]: the length of the match. *)
Definition match_here (s : jsstring) : option nat :=
  orelse
    match starts_with (lit "/**") s with
    | Some r => comment_body r 3
    | None => None
    end
    (after_comment s).

(** Start offsets of the successive matches, as [matchAll] yields them:
    after a match the search resumes where the match ended. *)
Fixpoint matchAll_from (s : jsstring) (pos skip : nat) : list nat :=
  match s with
  | [] => []
  | _ :: s' =>
      match skip with
      | S k => matchAll_from s' (S pos) k
      | O =>
          match match_here s with
          | Some len => pos :: matchAll_from s' (S pos) (len - 1)
          | None => matchAll_from s' (S pos) 0
          end
      end
  end.

Definition matchAll (text : jsstring) : list nat := matchAll_from text 0 0.

End Pattern.

(* ================================================================== *)
(** * Chunker: [AIService.chunkText] and [AIService.chunkByLine] *)
(* ================================================================== *)

Definition MAX_CHUNK_SIZE : Z := 8000.

(** One iteration of the [for (const line of lines)] loop of [chunkByLine];
    the state is [(chunks, currentChunk)]. *)
Definition chunkByLine_step (maxChunkSize : Z)
           (st : list jsstring * jsstring) (line : jsstring)
  : list jsstring * jsstring :=
  let '(chunks, currentChunk) := st in
  let '(chunks, currentChunk) :=
    if ((maxChunkSize <? Z.of_nat (length (currentChunk ++ line)))%Z
        && (0 <? length currentChunk)%nat)%bool
    then (chunks ++ [trim currentChunk], [])
    else (chunks, currentChunk) in
  (chunks, currentChunk ++ line ++ [LF]).

Definition chunkByLine (text : jsstring) (maxChunkSize : Z) : list jsstring :=
  let lines := split_lines text in
  let '(chunks, currentChunk) :=
    fold_left (chunkByLine_step maxChunkSize) lines
              (@pair (list jsstring) jsstring [] []) in
  if (0 <? length currentChunk)%nat
  then chunks ++ [trim currentChunk]
  else chunks.

(** What [chunkText] does with one trimmed section between two boundaries. *)
Definition push_section (maxChunkSize : Z) (chunks : list jsstring)
           (section : jsstring) : list jsstring :=
  if (0 <? length section)%nat then
    if (maxChunkSize <? Z.of_nat (length section))%Z
    then chunks ++ chunkByLine section maxChunkSize
    else chunks ++ [section]
  else chunks.

(** One iteration of the [for (const match of matches)] loop; the state is
    [(chunks, lastIndex)]. *)
Definition boundary_step (text : jsstring) (maxChunkSize : Z)
           (st : list jsstring * nat) (startIndex : nat)
  : list jsstring * nat :=
  let '(chunks, lastIndex) := st in
  let chunks :=
    if (lastIndex <? startIndex)%nat
    then push_section maxChunkSize chunks
           (trim (substring text lastIndex startIndex))
    else chunks in
  (chunks, startIndex).

(** [chunkText] for given start offsets of the pattern's matches. *)
Definition chunkText_at (matches : list nat) (text : jsstring)
           (maxChunkSize : Z) : list jsstring :=
  if (Z.of_nat (length text) <=? maxChunkSize)%Z then [text]
  else if (1 <? length matches)%nat then
    let '(chunks, lastIndex) :=
      fold_left (boundary_step text maxChunkSize) matches ([], 0%nat) in
    if (lastIndex <? length text)%nat
    then push_section maxChunkSize chunks (trim (substring_from text lastIndex))
    else chunks
  else chunkByLine text maxChunkSize.

Definition chunkText (text : jsstring) (maxChunkSize : Z) : list jsstring :=
  chunkText_at (Pattern.matchAll text) text maxChunkSize.



(* ================================================================== *)
(** * Data model and the world the service runs in *)
(* ================================================================== *)

Record Metadata := { source : jsstring; type : jsstring }.

Record DocumentChunk := {
  content : jsstring;
  embedding : list float;
  metadata : Metadata
}.

(** The disk: what a path names, and whether a write to it goes through
    (permissions, a missing parent directory). *)
Inductive Node := File (data : jsstring) | Directory.

Record FileSystem := {
  node : jsstring -> option Node;
  writable : jsstring -> bool
}.

Inductive Exception :=
| ENOENT (path : jsstring)
| EISDIR (path : jsstring)
| EACCES (path : jsstring)
| SyntaxError
| EmbeddingFailed
| SimilarityFailed.

(** Console output.  Only the diagnostics the specification speaks of are
    recorded; progress lines written with [console.log] are left out. *)
Inductive Level := LOG | WARN | ERROR.

Inductive Message :=
| NothingToSave
| KnowledgeBaseFileNotFound (filePath : jsstring)
| RepositoryPathNotFound (repoPath : jsstring)
| ErrorProcessingChangedFile (filePath : jsstring) (error : Exception).

Record State := {
  knowledgeBase : list DocumentChunk;
  disk : FileSystem;
  console : list (Level * Message)
}.

(** A call returns or throws; either way it leaves a state behind. *)
Inductive Outcome (A : Type) := Return (a : A) | Throw (e : Exception).
Arguments Return {A} a.
Arguments Throw {A} e.

Definition M (A : Type) : Type := State -> Outcome A * State.

Definition ret {A} (a : A) : M A := fun st => (Return a, st).

Definition throw {A} (e : Exception) : M A := fun st => (Throw e, st).

Definition bind {A B} (m : M A) (k : A -> M B) : M B :=
  fun st =>
    match m st with
    | (Return a, st') => k a st'
    | (Throw e, st') => (Throw e, st')
    end.

(** [try { body } catch (error) { handler }] *)
Definition try_catch {A} (body : M A) (handler : Exception -> M A) : M A :=
  fun st =>
    match body st with
    | (Return a, st') => (Return a, st')
    | (Throw e, st') => handler e st'
    end.

Declare Scope js_scope.
Delimit Scope js_scope with js.
Notation "x <- m ;; k" := (bind m (fun x => k))
  (at level 61, m at next level, right associativity) : js_scope.
Notation "m ;; k" := (bind m (fun _ => k))
  (at level 61, right associativity) : js_scope.
Open Scope js_scope.

Definition get_knowledgeBase : M (list DocumentChunk) :=
  fun st => (Return (knowledgeBase st), st).

Definition set_knowledgeBase (kb : list DocumentChunk) : M unit :=
  fun st => (Return tt, {| knowledgeBase := kb; disk := disk st; console := console st |}).

Definition console_write (level : Level) (message : Message) : M unit :=
  fun st =>
    (Return tt,
     {| knowledgeBase := knowledgeBase st; disk := disk st;
        console := console st ++ [(level, message)] |}).

Definition exists_on (fs : FileSystem) (path : jsstring) : bool :=
  match node fs path with Some _ => true | None => false end.

Definition write_on (fs : FileSystem) (path data : jsstring) : FileSystem :=
  {| node := fun q => if jsstring_eqb q path then Some (File data) else node fs q;
     writable := writable fs |}.

(** [fs.existsSync(path)] *)
Definition existsSync (path : jsstring) : M bool :=
  fun st => (Return (exists_on (disk st) path), st).

(** [fs.readFileSync(path, "utf-8")] *)
Definition readFileSync (path : jsstring) : M jsstring :=
  fun st =>
    match node (disk st) path with
    | Some (File data) => (Return data, st)
    | Some Directory => (Throw (EISDIR path), st)
    | None => (Throw (ENOENT path), st)
    end.

(** [fs.writeFileSync(path, data)] *)
Definition writeFileSync (path data : jsstring) : M unit :=
  fun st =>
    match node (disk st) path with
    | Some Directory => (Throw (EISDIR path), st)
    | _ =>
        if writable (disk st) path
        then (Return tt,
              {| knowledgeBase := knowledgeBase st;
                 disk := write_on (disk st) path data;
                 console := console st |})
        else (Throw (EACCES path), st)
    end.

(** A library call that may throw. *)
Definition call {A} (e : Exception) (result : option A) : M A :=
  match result with Some a => ret a | None => throw e end.

(** [xs.join(sep)] *)
Fixpoint join (sep : jsstring) (xs : list jsstring) : jsstring :=
  match xs with
  | [] => []
  | x :: rest =>
      match rest with
      | [] => x
      | _ :: _ => x ++ sep ++ join sep rest
      end
  end.

(** [s.split(" ")] *)
Fixpoint split_space (s : jsstring) : list jsstring :=
  match s with
  | [] => [[]]
  | c :: s' =>
      if (c =? SPACE)%N then [] :: split_space s'
      else match split_space s' with
           | l :: ls => (c :: l) :: ls
           | [] => [[c]]
           end
  end.

(** [xs.slice(0, end)]: a negative [end] counts from the end of the array. *)
Definition slice0 {A} (xs : list A) (end_ : Z) : list A :=
  let len := Z.of_nat (length xs) in
  let final := if (end_ <? 0)%Z then Z.max (len + end_) 0 else Z.min end_ len in
  firstn (Z.to_nat final) xs.

(** ** [Array.prototype.sort(comparefn)]

    The sort is stable, and [comparefn(x, y) > 0] asks for [y] before [x]; a
    [NaN] result counts as [0].  With a consistent [comparefn] the result is
    determined by these two facts; it is computed here by stable insertion. *)
Definition sorts_after {A} (comparefn : A -> A -> float) (x y : A) : bool :=
  (0 <? comparefn x y)%float.

Fixpoint sort_insert {A} (comparefn : A -> A -> float) (x : A) (sorted : list A) : list A :=
  match sorted with
  | [] => [x]
  | y :: rest =>
      if sorts_after comparefn x y
      then y :: sort_insert comparefn x rest
      else x :: sorted
  end.

Definition sort {A} (comparefn : A -> A -> float) (xs : list A) : list A :=
  fold_right (sort_insert comparefn) [] xs.

(** [x] may stand before [y]: [comparefn(x, y)] is not positive. *)
Definition precedes {A} (comparefn : A -> A -> float) (x y : A) : bool :=
  negb (sorts_after comparefn x y).


(** [comparefn] is a consistent comparator on the values [xs]: [precedes] is
    total and transitive on them.  The similarities of a store are compared
    consistently unless one of them is [NaN]. *)
Definition consistent_on {A} (comparefn : A -> A -> float) (xs : list A) : Prop :=
  (forall x y, In x xs -> In y xs ->
               precedes comparefn x y = true \/ precedes comparefn y x = true)
  /\ (forall x y z, In x xs -> In y xs -> In z xs ->
                    precedes comparefn x y = true -> precedes comparefn y z = true ->
                    precedes comparefn x z = true).

Definition consistentb {A} (comparefn : A -> A -> float) (xs : list A) : bool :=
  forallb
    (fun x =>
       forallb
         (fun y =>
            (precedes comparefn x y || precedes comparefn y x)
            && forallb
                 (fun z =>
                    implb (precedes comparefn x y && precedes comparefn y z)
                          (precedes comparefn x z))
                 xs)
         xs)
    xs.

(* ================================================================== *)
(** * [AIService]: the knowledge store and the context retriever

    The services of the runtime and of the libraries the class calls are
    parameters: the embedding model and [cosineSimilarity] of the [ai]
    package, [JSON], [path] and [String.prototype.toLowerCase].  A call that
    can throw returns [None] when it does.  [JSON_parse] is read at the type
    the class declares for its field, [DocumentChunk[]]. *)
(* ================================================================== *)

Record Scored := { document : DocumentChunk; similarity : float }.

(** [(a, b) => b.similarity - a.similarity] *)
Definition by_similarity (a b : Scored) : float :=
  (similarity b - similarity a)%float.

(** The [switch] of [determineFileType]. *)
Definition determineFileType (extension : jsstring) : jsstring :=
  if array_includes [lit ".ts"; lit ".tsx"; lit ".js"; lit ".jsx"] extension
  then lit "code"
  else if jsstring_eqb extension (lit ".md") then lit "documentation"
  else if jsstring_eqb extension (lit ".json") then lit "configuration"
  else lit "other".

Definition code_extensions : list jsstring :=
  [lit ".ts"; lit ".tsx"; lit ".js"; lit ".jsx"].

Definition no_knowledge_base : jsstring := lit "No knowledge base available".





(** The chunk with its stored [metadata.type] replaced. *)
Definition retype (new_type : DocumentChunk -> jsstring) (doc : DocumentChunk)
  : DocumentChunk :=
  {| content := content doc;
     embedding := embedding doc;
     metadata := {| source := source (metadata doc); type := new_type doc |} |}.

Definition retype_scored (new_type : DocumentChunk -> jsstring) (r : Scored) : Scored :=
  {| document := retype new_type (document r); similarity := similarity r |}.

(** From [st] to [st'] the disk stayed the same and the store was only
    appended to. *)
Definition grows (st st' : State) : Prop :=
  disk st' = disk st
  /\ exists added, knowledgeBase st' = knowledgeBase st ++ added.

(** Every run of [m] leaves the disk alone and only appends to the store,
    whether it returns or throws. *)
Definition growing {A} (m : M A) : Prop := forall st, grows st (snd (m st)).

Section Service.

Variable embed : jsstring -> option (list float).
Variable cosineSimilarity : list float -> list float -> option float.
Variable JSON_stringify : list DocumentChunk -> jsstring.
Variable JSON_parse : jsstring -> option (list DocumentChunk).
Variable path_extname : jsstring -> jsstring.
Variable toLowerCase : jsstring -> jsstring.

(** [addToKnowledgeBase(content, metadata)] *)
Definition addToKnowledgeBase (content : jsstring) (metadata : Metadata) : M unit :=
  embedding <- call EmbeddingFailed (embed content) ;;
  kb <- get_knowledgeBase ;;
  set_knowledgeBase
    (kb ++ [{| content := content; embedding := embedding; metadata := metadata |}]).

(** [saveKnowledgeBase(filePath)] *)
Definition saveKnowledgeBase (filePath : jsstring) : M unit :=
  kb <- get_knowledgeBase ;;
  if (length kb =? 0)%nat
  then console_write LOG NothingToSave
  else writeFileSync filePath (JSON_stringify kb).

(** [loadKnowledgeBase(filePath)] *)
Definition loadKnowledgeBase (filePath : jsstring) : M unit :=
  present <- existsSync filePath ;;
  if present : bool
  then
    data <- readFileSync filePath ;;
    kb <- call SyntaxError (JSON_parse data) ;;
    set_knowledgeBase kb
  else console_write ERROR (KnowledgeBaseFileNotFound filePath).

(** The filter of [getRelevantContext]: the extension of the first
    space-separated word of [metadata.source] is a code extension. *)
Definition is_code_entry (doc : DocumentChunk) : bool :=
  let source := source (metadata doc) in
  let filename := nth 0 (split_space source) [] in
  let ext := toLowerCase (path_extname filename) in
  array_includes code_extensions ext.

(** [codeEntries.map(doc => ({document: doc, similarity: ...}))] *)
Fixpoint score_all (queryEmbedding : list float) (docs : list DocumentChunk)
  : option (list Scored) :=
  match docs with
  | [] => Some []
  | doc :: rest =>
      match cosineSimilarity queryEmbedding (embedding doc) with
      | None => None
      | Some s =>
          match score_all queryEmbedding rest with
          | None => None
          | Some scored => Some ({| document := doc; similarity := s |} :: scored)
          end
      end
  end.

(** The constant [results] of [getRelevantContext]. *)
Definition relevant_results (kb : list DocumentChunk) (query : jsstring)
           (maxResults : Z) : M (list Scored) :=
  let codeEntries := filter is_code_entry kb in
  embedding <- call EmbeddingFailed (embed query) ;;
  scored <- call SimilarityFailed (score_all embedding codeEntries) ;;
  ret (slice0 (sort by_similarity scored) maxResults).

Definition format_result (r : Scored) : jsstring :=
  lit "[" ++ source (metadata (document r)) ++ lit "] " ++ content (document r).

(** [getRelevantContext(query, maxResults = 5)] *)
Definition getRelevantContext (query : jsstring) (maxResults : Z) : M jsstring :=
  kb <- get_knowledgeBase ;;
  if (length kb =? 0)%nat
  then ret no_knowledge_base
  else
    results <- relevant_results kb query maxResults ;;
    ret (join [LF; LF] (map format_result results)).

(* ------------------------------------------------------------------ *)
(** ** [WebhookDocUpdateAgent.updateKnowledgeBase] *)

Variable path_join : jsstring -> jsstring -> jsstring.

(** The three path-substring exclusions, each a [continue] of the loop. *)
Definition excluded_path (filePath : jsstring) : bool :=
  includes filePath (lit "packages/agw-client/src/abis/")
  || includes filePath (lit "packages/agw-client/test/")
  || includes filePath (lit "packages/web3-react-agw/").

Definition ingested_extensions : list jsstring :=
  [lit ".ts"; lit ".tsx"; lit ".js"; lit ".jsx"; lit ".md"; lit ".json"].

(** The template literal naming part [i] of [total]. *)
Definition part_source (filePath : jsstring) (i total : nat) : jsstring :=
  filePath ++ lit " (part " ++ decimal i ++ lit "/" ++ decimal total ++ lit ")".

(** [for (let i = 0; i < chunks.length; i++) await addToKnowledgeBase(...)],
    from index [i] on. *)
Fixpoint add_parts (filePath fileType : jsstring) (total i : nat)
         (chunks : list jsstring) : M unit :=
  match chunks with
  | [] => ret tt
  | chunk :: rest =>
      addToKnowledgeBase chunk
        {| source := part_source filePath (i + 1) total; type := fileType |} ;;
      add_parts filePath fileType total (S i) rest
  end.

(** The body of the [try] block; it returns whether [updated = true] was
    reached. *)
Definition ingest_changed_file (filePath fullPath : jsstring) : M bool :=
  content <- readFileSync fullPath ;;
  let ext := toLowerCase (path_extname filePath) in
  if array_includes ingested_extensions ext
  then
    let fileType := determineFileType ext in
    (if (MAX_CHUNK_SIZE <? Z.of_nat (length content))%Z
     then
       let chunks := chunkText content MAX_CHUNK_SIZE in
       add_parts filePath fileType (length chunks) 0 chunks
     else
       addToKnowledgeBase content {| source := filePath; type := fileType |}) ;;
    ret true
  else ret false.

(** One iteration of [for (const filePath of changedFiles)]; the value is
    the variable [updated]. *)
Definition update_step (repoPath : jsstring) (updated : bool) (filePath : jsstring)
  : M bool :=
  if excluded_path filePath then ret updated
  else
    let fullPath := path_join repoPath filePath in
    present <- existsSync fullPath ;;
    if present : bool
    then
      try_catch
        (reached <- ingest_changed_file filePath fullPath ;;
         ret (updated || reached)%bool)
        (fun error =>
           console_write ERROR (ErrorProcessingChangedFile filePath error) ;;
           ret updated)
    else ret updated.

Fixpoint update_loop (repoPath : jsstring) (changedFiles : list jsstring)
         (updated : bool) : M bool :=
  match changedFiles with
  | [] => ret updated
  | filePath :: rest =>
      updated' <- update_step repoPath updated filePath ;;
      update_loop repoPath rest updated'
  end.

(** [updateKnowledgeBase(changedFiles)], for the agent's [repoPath] and
    [knowledgeBasePath]. *)
Definition updateKnowledgeBase (repoPath knowledgeBasePath : jsstring)
           (changedFiles : list jsstring) : M unit :=
  present <- existsSync repoPath ;;
  if negb present
  then console_write WARN (RepositoryPathNotFound repoPath)
  else
    updated <- update_loop repoPath changedFiles false ;;
    if updated : bool
    then saveKnowledgeBase knowledgeBasePath
    else ret tt.

End Service.

(* ================================================================== *)
(** * A concrete runtime

    Implementations of the services the model takes as parameters, to run it
    on given inputs.  The theorems above hold for every choice of them. *)
(* ================================================================== *)

Module Runtime.

(** ** [path] and [String.prototype.toLowerCase] *)

(** The loop state of [path.posix.extname]. *)
Record ExtnameState := {
  startDot : option nat;
  startPart : nat;
  end_ : option nat;
  matchedSlash : bool;
  preDotState : Z;
  stopped : bool
}.

(** One step of the loop, which runs from the last code unit to the first. *)
Definition extname_step (s : ExtnameState) (ic : nat * N) : ExtnameState :=
  let '(i, code) := ic in
  if stopped s then s
  else if (code =? 47)%N then
    if matchedSlash s then s
    else {| startDot := startDot s; startPart := i + 1; end_ := end_ s;
            matchedSlash := false; preDotState := preDotState s; stopped := true |}
  else
    let '(e, ms) :=
      match end_ s with
      | None => (Some (i + 1)%nat, false)
      | Some e => (Some e, matchedSlash s)
      end in
    if (code =? 46)%N then
      match startDot s with
      | None => {| startDot := Some i; startPart := startPart s; end_ := e;
                   matchedSlash := ms; preDotState := preDotState s; stopped := false |}
      | Some d => {| startDot := Some d; startPart := startPart s; end_ := e;
                     matchedSlash := ms; preDotState := 1; stopped := false |}
      end
    else
      match startDot s with
      | None => {| startDot := None; startPart := startPart s; end_ := e;
                   matchedSlash := ms; preDotState := preDotState s; stopped := false |}
      | Some d => {| startDot := Some d; startPart := startPart s; end_ := e;
                     matchedSlash := ms; preDotState := (-1); stopped := false |}
      end.

(** [path.extname(p)] for POSIX paths. *)
Definition extname (p : jsstring) : jsstring :=
  let final :=
    fold_left extname_step (rev (combine (seq 0 (length p)) p))
      {| startDot := None; startPart := 0; end_ := None;
         matchedSlash := true; preDotState := 0; stopped := false |} in
  match startDot final, end_ final with
  | Some d, Some e =>
      if ((preDotState final =? 0)%Z
          || ((preDotState final =? 1)%Z && (d =? e - 1)%nat
              && (d =? startPart final + 1)%nat))%bool
      then []
      else substring p d e
  | _, _ => []
  end.

(** [toLowerCase] on the letters A to Z; other code units are kept (the
    letters outside ASCII are not mapped). *)
Definition toLowerCase (s : jsstring) : jsstring :=
  map (fun c => if ((65 <=? c) && (c <=? 90))%N then (c + 32)%N else c) s.

(** [path.join(a, b)] for segments that need no normalization. *)
Definition join_path (a b : jsstring) : jsstring := a ++ lit "/" ++ b.

(** ** Embeddings and similarity *)

Fixpoint float_of_nat (n : nat) : float :=
  match n with
  | O => 0%float
  | S k => (float_of_nat k + 1)%float
  end.

(** A stand-in for the embedding model: two components read off the text.
    It refuses the empty text. *)
Definition embed (text : jsstring) : option (list float) :=
  match text with
  | [] => None
  | _ :: _ =>
      Some [float_of_nat (length text);
            float_of_nat (length (filter isWhiteSpace text)) + 1]%float
  end.

Definition dot (a b : list float) : float :=
  fold_left (fun acc xy => (acc + fst xy * snd xy)%float) (combine a b) 0%float.

(** Cosine similarity in binary64 arithmetic; it throws on vectors of
    different lengths and gives [0] when a vector has no magnitude. *)
Definition cosineSimilarity (a b : list float) : option float :=
  if (length a =? length b)%nat then
    let ma := sqrt (dot a a) in
    let mb := sqrt (dot b b) in
    if ((ma =? 0) || (mb =? 0))%float%bool then Some 0%float
    else Some (dot a b / (ma * mb))%float
  else None.

(** ** The snapshot file

    A codec for the snapshot in the layout [JSON.stringify(kb, null, 2)]
    gives it.  Numbers are written in positional notation with all their
    digits, so a finite binary64 value is written exactly; a decimal is read
    as the nearest binary64 value. *)

Definition QUOTE : N := 34%N.
Definition BACKSLASH : N := 92%N.

Definition hex_digit (n : N) : N :=
  if (n <? 10)%N then (48 + n)%N else (87 + n)%N.

Definition unicode_escape (c : N) : jsstring :=
  [BACKSLASH; 117%N;
   hex_digit (c / 4096); hex_digit ((c / 256) mod 16);
   hex_digit ((c / 16) mod 16); hex_digit (c mod 16)].

Definition is_high_surrogate (c : N) : bool := ((55296 <=? c) && (c <=? 56319))%N.
Definition is_low_surrogate (c : N) : bool := ((56320 <=? c) && (c <=? 57343))%N.

Definition escape_unit (c : N) : jsstring :=
  if (c =? QUOTE)%N then [BACKSLASH; QUOTE]
  else if (c =? BACKSLASH)%N then [BACKSLASH; BACKSLASH]
  else if (c =? 8)%N then [BACKSLASH; 98%N]
  else if (c =? 12)%N then [BACKSLASH; 102%N]
  else if (c =? 10)%N then [BACKSLASH; 110%N]
  else if (c =? 13)%N then [BACKSLASH; 114%N]
  else if (c =? 9)%N then [BACKSLASH; 116%N]
  else if (c <? 32)%N then unicode_escape c
  else if (is_high_surrogate c || is_low_surrogate c)%bool then unicode_escape c
  else [c].

(** The characters of a string literal; a surrogate pair is kept, a lone
    surrogate is escaped. *)
Fixpoint quote_body (s : jsstring) : jsstring :=
  match s with
  | [] => []
  | c :: rest =>
      match rest with
      | d :: rest' =>
          if (is_high_surrogate c && is_low_surrogate d)%bool
          then c :: d :: quote_body rest'
          else escape_unit c ++ quote_body rest
      | [] => escape_unit c
      end
  end.

Definition quote (s : jsstring) : jsstring := [QUOTE] ++ quote_body s ++ [QUOTE].

Definition digits_of (p : positive) : jsstring :=
  lit (NilEmpty.string_of_uint (Pos.to_uint p)).

(** A number as [JSON] text: [null] when it is not finite. *)
Definition number_to_json (x : float) : jsstring :=
  match Prim2SF x with
  | S754_zero _ => lit "0"
  | S754_infinity _ | S754_nan => lit "null"
  | S754_finite s m e =>
      (if s then lit "-" else [])
      ++ match e with
         | Zneg k =>
             let ds := digits_of (m * 5 ^ k)%positive in
             let k := Pos.to_nat k in
             let padded := repeat 48%N (k + 1 - length ds) ++ ds in
             let whole := firstn (length padded - k) padded in
             let frac :=
               rev (dropWhile (N.eqb 48) (rev (skipn (length padded - k) padded))) in
             whole ++ match frac with [] => [] | _ :: _ => lit "." ++ frac end
         | _ => digits_of (Z.to_pos (Zpos m * 2 ^ e))
         end
  end.

Definition indent (n : nat) : jsstring := repeat SPACE n.

Definition member (depth : nat) (name : string) (value : jsstring) : jsstring :=
  indent depth ++ quote (lit name) ++ lit ": " ++ value.

Definition numbers_to_json (depth : nat) (xs : list float) : jsstring :=
  match xs with
  | [] => lit "[]"
  | _ :: _ =>
      lit "[" ++ [LF]
      ++ join (lit "," ++ [LF]) (map (fun x => indent (depth + 2) ++ number_to_json x) xs)
      ++ [LF] ++ indent depth ++ lit "]"
  end.

Definition chunk_to_json (doc : DocumentChunk) : jsstring :=
  indent 2 ++ lit "{" ++ [LF]
  ++ member 4 "content" (quote (content doc)) ++ lit "," ++ [LF]
  ++ member 4 "embedding" (numbers_to_json 4 (embedding doc)) ++ lit "," ++ [LF]
  ++ member 4 "metadata"
       (lit "{" ++ [LF]
        ++ member 6 "source" (quote (source (metadata doc))) ++ lit "," ++ [LF]
        ++ member 6 "type" (quote (type (metadata doc))) ++ [LF]
        ++ indent 4 ++ lit "}") ++ [LF]
  ++ indent 2 ++ lit "}".

(** [JSON.stringify(knowledgeBase, null, 2)] *)
Definition stringify (kb : list DocumentChunk) : jsstring :=
  match kb with
  | [] => lit "[]"
  | _ :: _ =>
      lit "[" ++ [LF] ++ join (lit "," ++ [LF]) (map chunk_to_json kb)
      ++ [LF] ++ lit "]"
  end.

Inductive Token :=
| TOpenBracket | TCloseBracket | TOpenBrace | TCloseBrace | TColon | TComma
| TString (s : jsstring)
| TNumber (x : float).

Definition hex_value (c : N) : option N :=
  if ((48 <=? c) && (c <=? 57))%N then Some (c - 48)%N
  else if ((97 <=? c) && (c <=? 102))%N then Some (c - 87)%N
  else if ((65 <=? c) && (c <=? 70))%N then Some (c - 55)%N
  else None.

Definition hex4 (a b c d : N) : option N :=
  match hex_value a, hex_value b, hex_value c, hex_value d with
  | Some a, Some b, Some c, Some d => Some (((a * 16 + b) * 16 + c) * 16 + d)%N
  | _, _, _, _ => None
  end.

Definition simple_escape (e : N) : option N :=
  if (e =? QUOTE)%N then Some QUOTE
  else if (e =? BACKSLASH)%N then Some BACKSLASH
  else if (e =? 47)%N then Some 47%N
  else if (e =? 98)%N then Some 8%N
  else if (e =? 102)%N then Some 12%N
  else if (e =? 110)%N then Some 10%N
  else if (e =? 114)%N then Some 13%N
  else if (e =? 116)%N then Some 9%N
  else None.

Definition prepend {A B} (a : A) (r : option (list A * B)) : option (list A * B) :=
  match r with
  | Some (l, b) => Some (a :: l, b)
  | None => None
  end.

(** A string literal after its opening quote: its value and what follows
    the closing quote. *)
Fixpoint read_string (s : jsstring) : option (jsstring * jsstring) :=
  match s with
  | [] => None
  | c :: rest =>
      if (c =? QUOTE)%N then Some ([], rest)
      else if (c <? 32)%N then None
      else if (c =? BACKSLASH)%N then
        match rest with
        | e :: rest' =>
            if (e =? 117)%N then
              match rest' with
              | h1 :: h2 :: h3 :: h4 :: rest'' =>
                  match hex4 h1 h2 h3 h4 with
                  | Some v => prepend v (read_string rest'')
                  | None => None
                  end
              | _ => None
              end
            else
              match simple_escape e with
              | Some v => prepend v (read_string rest')
              | None => None
              end
        | [] => None
        end
      else prepend c (read_string rest)
  end.

Definition is_digit (c : N) : bool := ((48 <=? c) && (c <=? 57))%N.

Fixpoint span_digits (s : jsstring) : jsstring * jsstring :=
  match s with
  | c :: rest =>
      if is_digit c
      then let '(ds, r) := span_digits rest in (c :: ds, r)
      else ([], s)
  | [] => ([], [])
  end.

Definition digits_value (ds : jsstring) : N :=
  fold_left (fun acc d => (acc * 10 + (d - 48))%N) ds 0%N.

(** The binary64 value nearest to [n * 10 ^ x], with the sign [neg]. *)
Definition decimal_to_float (neg : bool) (n : N) (x : Z) : float :=
  match n with
  | N0 => if neg then (-0)%float else 0%float
  | Npos p =>
      SF2Prim
        match x with
        | Zneg k =>
            SFdiv prec emax (S754_finite neg p 0) (S754_finite false (10 ^ k) 0)
        | _ =>
            binary_normalize prec emax
              ((if neg then Zneg p else Zpos p) * 10 ^ x)%Z 0 false
        end
  end.

(** A number literal: its value and what follows it. *)
Definition read_number (s : jsstring) : option (float * jsstring) :=
  let '(neg, s1) :=
    match s with
    | c :: rest => if (c =? 45)%N then (true, rest) else (false, s)
    | [] => (false, s)
    end in
  let '(whole, s2) := span_digits s1 in
  match whole with
  | [] => None
  | w :: ws =>
      if ((w =? 48)%N && negb (length ws =? 0)%nat)%bool then None
      else
        let frac_rest :=
          match s2 with
          | c :: rest =>
              if (c =? 46)%N then
                let '(frac, s3) := span_digits rest in
                match frac with [] => None | _ :: _ => Some (frac, s3) end
              else Some ([], s2)
          | [] => Some ([], s2)
          end in
        match frac_rest with
        | None => None
        | Some (frac, s3) =>
            let mantissa := digits_value (whole ++ frac) in
            let scale := (- Z.of_nat (length frac))%Z in
            let exponent_rest :=
              match s3 with
              | c :: rest =>
                  if ((c =? 101)%N || (c =? 69)%N)%bool then
                    let '(eneg, s4) :=
                      match rest with
                      | sg :: rest' =>
                          if (sg =? 45)%N then (true, rest')
                          else if (sg =? 43)%N then (false, rest')
                          else (false, rest)
                      | [] => (false, rest)
                      end in
                    let '(eds, s5) := span_digits s4 in
                    match eds with
                    | [] => None
                    | _ :: _ =>
                        let e := Z.of_N (digits_value eds) in
                        Some ((if eneg then - e else e)%Z, s5)
                    end
                  else Some (0%Z, s3)
              | [] => Some (0%Z, s3)
              end in
            match exponent_rest with
            | None => None
            | Some (e, s5) => Some (decimal_to_float neg mantissa (scale + e), s5)
            end
        end
  end.

Definition is_json_space (c : N) : bool :=
  ((c =? 32) || (c =? 9) || (c =? 10) || (c =? 13))%N.

Definition punctuation (c : N) : option Token :=
  if (c =? 91)%N then Some TOpenBracket
  else if (c =? 93)%N then Some TCloseBracket
  else if (c =? 123)%N then Some TOpenBrace
  else if (c =? 125)%N then Some TCloseBrace
  else if (c =? 58)%N then Some TColon
  else if (c =? 44)%N then Some TComma
  else None.

(** The tokens of a text, [None] when it is not made of the tokens a
    snapshot holds. *)
Fixpoint tokenize (fuel : nat) (s : jsstring) : option (list Token) :=
  match fuel with
  | O => None
  | S fuel' =>
      match s with
      | [] => Some []
      | c :: rest =>
          if is_json_space c then tokenize fuel' rest
          else
            match punctuation c with
            | Some t => option_map (cons t) (tokenize fuel' rest)
            | None =>
                if (c =? QUOTE)%N then
                  match read_string rest with
                  | Some (str, rest') =>
                      option_map (cons (TString str)) (tokenize fuel' rest')
                  | None => None
                  end
                else
                  match read_number s with
                  | Some (x, rest') =>
                      if (length rest' <? length s)%nat
                      then option_map (cons (TNumber x)) (tokenize fuel' rest')
                      else None
                  | None => None
                  end
            end
      end
  end.

(** After a number of an array: a comma and the next number, or the end. *)
Fixpoint read_numbers_tail (ts : list Token) : option (list float * list Token) :=
  match ts with
  | TCloseBracket :: rest => Some ([], rest)
  | TComma :: TNumber x :: rest => prepend x (read_numbers_tail rest)
  | _ => None
  end.

Definition read_numbers (ts : list Token) : option (list float * list Token) :=
  match ts with
  | TOpenBracket :: TCloseBracket :: rest => Some ([], rest)
  | TOpenBracket :: TNumber x :: rest => prepend x (read_numbers_tail rest)
  | _ => None
  end.

Definition key_is (s : jsstring) (name : string) : bool := jsstring_eqb s (lit name).

Definition read_metadata (ts : list Token) : option (Metadata * list Token) :=
  match ts with
  | TOpenBrace :: TString k1 :: TColon :: TString src :: TComma
      :: TString k2 :: TColon :: TString ty :: TCloseBrace :: rest =>
      if (key_is k1 "source" && key_is k2 "type")%bool
      then Some ({| source := src; type := ty |}, rest)
      else None
  | _ => None
  end.

Definition read_chunk (ts : list Token) : option (DocumentChunk * list Token) :=
  match ts with
  | TOpenBrace :: TString k1 :: TColon :: TString c :: TComma
      :: TString k2 :: TColon :: rest =>
      if (key_is k1 "content" && key_is k2 "embedding")%bool then
        match read_numbers rest with
        | Some (xs, TComma :: TString k3 :: TColon :: rest') =>
            if key_is k3 "metadata" then
              match read_metadata rest' with
              | Some (md, TCloseBrace :: rest'') =>
                  Some ({| content := c; embedding := xs; metadata := md |}, rest'')
              | _ => None
              end
            else None
        | _ => None
        end
      else None
  | _ => None
  end.

(** After a chunk of the array: a comma and the next chunk, or the end of
    the array, which ends the text. *)
Fixpoint read_chunks_tail (fuel : nat) (ts : list Token) : option (list DocumentChunk) :=
  match fuel with
  | O => None
  | S fuel' =>
      match ts with
      | [TCloseBracket] => Some []
      | TComma :: rest =>
          match read_chunk rest with
          | Some (doc, rest') => option_map (cons doc) (read_chunks_tail fuel' rest')
          | None => None
          end
      | _ => None
      end
  end.

(** [JSON.parse(data)] on a snapshot; [None] is the [SyntaxError]. *)
Definition parse (data : jsstring) : option (list DocumentChunk) :=
  match tokenize (S (length data)) data with
  | Some [TOpenBracket; TCloseBracket] => Some []
  | Some (TOpenBracket :: rest) =>
      match read_chunk rest with
      | Some (doc, rest') =>
          option_map (cons doc) (read_chunks_tail (length rest') rest')
      | None => None
      end
  | _ => None
  end.

End Runtime.

(* ================================================================== *)
(** * A concrete store and disk *)
(* ================================================================== *)

Module Scenario.

Definition save := saveKnowledgeBase Runtime.stringify.
Definition load := loadKnowledgeBase Runtime.parse.
Definition relevant :=
  relevant_results Runtime.embed Runtime.cosineSimilarity
                   Runtime.extname Runtime.toLowerCase.
Definition update :=
  updateKnowledgeBase Runtime.embed Runtime.stringify
                      Runtime.extname Runtime.toLowerCase Runtime.join_path.

(** A disk holding the listed nodes, on which every write goes through. *)
Definition disk_of (nodes : list (jsstring * Node)) : FileSystem :=
  {| node := fun p =>
               option_map snd (find (fun e => jsstring_eqb (fst e) p) nodes);
     writable := fun _ => true |}.

Definition embedding_of (text : jsstring) : list float :=
  match Runtime.embed text with Some e => e | None => [] end.

Definition chunk (content source type : string) : DocumentChunk :=
  {| content := lit content;
     embedding := embedding_of (lit content);
     metadata := {| source := lit source; type := lit type |} |}.

Definition first_ts : DocumentChunk := chunk "xy" "src/first.ts" "code".
Definition second_ts : DocumentChunk := chunk "ab" "src/second.ts (part 1/2)" "code".
Definition readme : DocumentChunk := chunk "id" "README.md" "documentation".
Definition other_js : DocumentChunk := chunk "a b c d" "lib/other.JS" "code".

Definition store : list DocumentChunk := [first_ts; second_ts; readme; other_js].

Definition snapshot : jsstring := lit "data/knowledge.json".

Definition world (kb : list DocumentChunk) (nodes : list (jsstring * Node)) : State :=
  {| knowledgeBase := kb; disk := disk_of nodes; console := [] |}.

(** The score the retriever gives a chunk for the query [id]. *)
Definition scored (doc : DocumentChunk) : Scored :=
  {| document := doc;
     similarity :=
       match Runtime.cosineSimilarity (embedding_of (lit "id")) (embedding doc) with
       | Some s => s
       | None => 0%float
       end |}.

(** A repository with one source file. *)
Definition repository : list (jsstring * Node) :=
  [(lit "repo", Directory);
   (lit "repo/src/add.ts", File (lit "export const add = (a, b) => a + b"))].

End Scenario.

(* ================================================================== *)
(** * What an update reads and what it appends *)
(* ================================================================== *)

Section UpdateReading.

Variable embed : jsstring -> option (list float).
Variable path_extname : jsstring -> jsstring.
Variable toLowerCase : jsstring -> jsstring.
Variable path_join : jsstring -> jsstring -> jsstring.

(** A changed path the loop of [updateKnowledgeBase] goes on to read: it is
    not under an excluded location and names something on disk. *)
Definition read_by_update (fs : FileSystem) (repoPath filePath : jsstring) : bool :=
  negb (excluded_path filePath) && exists_on fs (path_join repoPath filePath).

(** [doc] is a chunk made from the changed file [filePath] as the disk [fs]
    holds it: its content is the file or one of the chunks of the file, its
    embedding is the one the model gives for that content, its type is the
    one of the file's extension, and its source names the file, with the
    part when the file was split. *)
Definition made_from (fs : FileSystem) (repoPath filePath : jsstring)
           (doc : DocumentChunk) : Prop :=
  exists fileContent,
    node fs (path_join repoPath filePath) = Some (File fileContent)
    /\ embed (content doc) = Some (embedding doc)
    /\ array_includes ingested_extensions (toLowerCase (path_extname filePath)) = true
    /\ type (metadata doc) = determineFileType (toLowerCase (path_extname filePath))
    /\ ((content doc = fileContent /\ source (metadata doc) = filePath
         /\ (Z.of_nat (length fileContent) <= MAX_CHUNK_SIZE)%Z)
        \/ exists i,
            (i < length (chunkText fileContent MAX_CHUNK_SIZE))%nat
            /\ nth_error (chunkText fileContent MAX_CHUNK_SIZE) i = Some (content doc)
            /\ source (metadata doc)
               = part_source filePath (i + 1)
                             (length (chunkText fileContent MAX_CHUNK_SIZE))
            /\ (MAX_CHUNK_SIZE < Z.of_nat (length fileContent))%Z).

End UpdateReading.

(** From [st] to [st'] the disk stayed the same and the chunks appended to
    the store all satisfy [P]. *)
Definition grows_by (P : DocumentChunk -> Prop) (st st' : State) : Prop :=
  disk st' = disk st
  /\ exists added, knowledgeBase st' = knowledgeBase st ++ added /\ Forall P added.

(* ================================================================== *)
(** * [AIService.processRepository]

    The walk over a repository.  What [fs.readdirSync(dir, {withFileTypes:
    true})] returns is given as a tree: an entry is a file or a directory,
    and a directory comes with the result of listing it, entries or an
    error.  Files are read from the disk of the state.  The record [stats]
    is an object the walk mutates, also inside [try] blocks, so it is part
    of the state of the walk. *)
(* ================================================================== *)

Module Repository.

#[warnings="-register-all"]
Inductive Dirent :=
| FileEntry (name : jsstring)
| DirEntry (name : jsstring) (listing : Exception + list Dirent).

Record Stats := {
  files : nat;
  chunks : nat;
  errors : nat;
  byType : list (jsstring * nat);
  largeFiles : nat;
  totalSize : nat
}.

Definition no_stats : Stats :=
  {| files := 0; chunks := 0; errors := 0; byType := [];
     largeFiles := 0; totalSize := 0 |}.

(** [byType[fileType] = (byType[fileType] || 0) + 1]; a new key goes last. *)
Fixpoint bump (fileType : jsstring) (byType : list (jsstring * nat))
  : list (jsstring * nat) :=
  match byType with
  | [] => [(fileType, 1%nat)]
  | (key, count) :: rest =>
      if jsstring_eqb key fileType then (key, (count + 1)%nat) :: rest
      else (key, count) :: bump fileType rest
  end.

Record Run := {
  service : State;
  stats : Stats
}.

Definition Walk (A : Type) : Type := Run -> Outcome A * Run.

Definition walk_ret {A} (a : A) : Walk A := fun run => (Return a, run).

Definition walk_throw {A} (e : Exception) : Walk A := fun run => (Throw e, run).

Definition walk_bind {A B} (m : Walk A) (k : A -> Walk B) : Walk B :=
  fun run =>
    match m run with
    | (Return a, run') => k a run'
    | (Throw e, run') => (Throw e, run')
    end.

Definition walk_try {A} (body : Walk A) (handler : Exception -> Walk A) : Walk A :=
  fun run =>
    match body run with
    | (Return a, run') => (Return a, run')
    | (Throw e, run') => handler e run'
    end.

(** A call of the service inside the walk. *)
Definition lift {A} (m : M A) : Walk A :=
  fun run =>
    let (outcome, st) := m (service run) in
    (outcome, {| service := st; stats := stats run |}).

Definition update_stats (f : Stats -> Stats) : Walk unit :=
  fun run => (Return tt, {| service := service run; stats := f (stats run) |}).

Declare Scope walk_scope.
Delimit Scope walk_scope with walk.
Notation "x <- m ;; k" := (walk_bind m (fun x => k))
  (at level 61, m at next level, right associativity) : walk_scope.
Notation "m ;; k" := (walk_bind m (fun _ => k))
  (at level 61, right associativity) : walk_scope.

Definition add_totalSize (n : nat) (s : Stats) : Stats :=
  {| files := files s; chunks := chunks s; errors := errors s; byType := byType s;
     largeFiles := largeFiles s; totalSize := totalSize s + n |}.

Definition count_type (fileType : jsstring) (s : Stats) : Stats :=
  {| files := files s; chunks := chunks s; errors := errors s;
     byType := bump fileType (byType s);
     largeFiles := largeFiles s; totalSize := totalSize s |}.

Definition count_largeFile (s : Stats) : Stats :=
  {| files := files s; chunks := chunks s; errors := errors s; byType := byType s;
     largeFiles := largeFiles s + 1; totalSize := totalSize s |}.

Definition count_chunk (s : Stats) : Stats :=
  {| files := files s; chunks := chunks s + 1; errors := errors s; byType := byType s;
     largeFiles := largeFiles s; totalSize := totalSize s |}.

Definition count_file (s : Stats) : Stats :=
  {| files := files s + 1; chunks := chunks s; errors := errors s; byType := byType s;
     largeFiles := largeFiles s; totalSize := totalSize s |}.

Definition count_error (s : Stats) : Stats :=
  {| files := files s; chunks := chunks s; errors := errors s + 1; byType := byType s;
     largeFiles := largeFiles s; totalSize := totalSize s |}.

Definition skipped_directories : list jsstring :=
  [lit "node_modules"; lit ".git"; lit "dist"; lit "build"; lit ".next"].

(** A file the walk goes on to read. *)
Record Candidate := {
  fullPath : jsstring;
  relativePath : jsstring;
  extension : jsstring
}.

Section Walk.

Variable embed : jsstring -> option (list float).
Variable path_extname : jsstring -> jsstring.
Variable toLowerCase : jsstring -> jsstring.
Variable path_join : jsstring -> jsstring -> jsstring.

Local Open Scope walk_scope.

(** [for (let i = 0; i < chunks.length; i++) { await addToKnowledgeBase(...);
    stats.chunks++ }], from index [i] on. *)
Fixpoint add_chunks (relativePath fileType : jsstring) (total i : nat)
         (parts : list jsstring) : Walk unit :=
  match parts with
  | [] => walk_ret tt
  | part :: rest =>
      lift (addToKnowledgeBase embed part
              {| source := part_source relativePath (i + 1) total;
                 type := fileType |}) ;;
      update_stats count_chunk ;;
      add_chunks relativePath fileType total (S i) rest
  end.

(** The [try] block of a file with a supported extension, and its [catch]. *)
Definition process_file (file : Candidate) : Walk unit :=
  walk_try
    (content <- lift (readFileSync (fullPath file)) ;;
     update_stats (add_totalSize (length content)) ;;
     let fileType := determineFileType (extension file) in
     update_stats (count_type fileType) ;;
     (if (MAX_CHUNK_SIZE <? Z.of_nat (length content))%Z
      then
        update_stats count_largeFile ;;
        let parts := chunkText content MAX_CHUNK_SIZE in
        add_chunks (relativePath file) fileType (length parts) 0 parts
      else
        lift (addToKnowledgeBase embed content
                {| source := relativePath file; type := fileType |}) ;;
        update_stats count_chunk) ;;
     update_stats count_file)
    (fun error => update_stats count_error).

Section ForEach.

Context {A : Type}.
Variable body : A -> Walk unit.

(** [for (const x of xs) body(x)] *)
Fixpoint for_each (xs : list A) : Walk unit :=
  match xs with
  | [] => walk_ret tt
  | x :: rest => body x ;; for_each rest
  end.

End ForEach.

(** One iteration of [for (const entry of entries)] in [processDirectory],
    with the recursive call for a directory. *)
Fixpoint process_entry (dirPath relativeDir : jsstring) (entry : Dirent) : Walk unit :=
  match entry with
  | DirEntry name listing =>
      let fullPath := path_join dirPath name in
      let relativePath := path_join relativeDir name in
      if array_includes skipped_directories name then walk_ret tt
      else
        match listing with
        | inl error => walk_throw error
        | inr entries => for_each (process_entry fullPath relativePath) entries
        end
  | FileEntry name =>
      let fullPath := path_join dirPath name in
      let relativePath := path_join relativeDir name in
      let ext := toLowerCase (path_extname name) in
      if excluded_path relativePath then walk_ret tt
      else if array_includes ingested_extensions ext
           then process_file {| fullPath := fullPath; relativePath := relativePath;
                                extension := ext |}
           else walk_ret tt
  end.

(** [processDirectory(dirPath, relativeDir)], for the result [listing] of
    [fs.readdirSync(dirPath)]. *)
Definition processDirectory (dirPath relativeDir : jsstring)
           (listing : Exception + list Dirent) : Walk unit :=
  match listing with
  | inl error => walk_throw error
  | inr entries => for_each (process_entry dirPath relativeDir) entries
  end.

(** [processRepository(repoPath)].  The function returns nothing and prints
    [stats] at the end; the value here is the record it prints. *)
Definition processRepository (repoPath : jsstring)
           (listing : Exception + list Dirent) : M Stats :=
  fun st =>
    match processDirectory repoPath [] listing {| service := st; stats := no_stats |} with
    | (Return _, run) => (Return (stats run), service run)
    | (Throw e, run) => (Throw e, service run)
    end.

(** ** The plan of a walk

    The files a walk reads, in the order it reads them, and the error that
    ends it, if a directory on the way cannot be listed. *)

Definition Plan : Type := list Candidate * option Exception.

Definition plan_then (first : Plan) (next : Plan) : Plan :=
  match snd first with
  | Some error => first
  | None => (fst first ++ fst next, snd next)
  end.

Section PlanEach.

Context {A : Type}.
Variable plan_of : A -> Plan.

Fixpoint plan_each (xs : list A) : Plan :=
  match xs with
  | [] => ([], None)
  | x :: rest => plan_then (plan_of x) (plan_each rest)
  end.

End PlanEach.

Fixpoint plan_entry (dirPath relativeDir : jsstring) (entry : Dirent) : Plan :=
  match entry with
  | DirEntry name listing =>
      if array_includes skipped_directories name then ([], None)
      else
        match listing with
        | inl error => ([], Some error)
        | inr entries =>
            plan_each (plan_entry (path_join dirPath name) (path_join relativeDir name))
                      entries
        end
  | FileEntry name =>
      if excluded_path (path_join relativeDir name) then ([], None)
      else if array_includes ingested_extensions (toLowerCase (path_extname name))
           then ([{| fullPath := path_join dirPath name;
                     relativePath := path_join relativeDir name;
                     extension := toLowerCase (path_extname name) |}], None)
           else ([], None)
  end.

Definition plan_directory (dirPath relativeDir : jsstring)
           (listing : Exception + list Dirent) : Plan :=
  match listing with
  | inl error => ([], Some error)
  | inr entries => plan_each (plan_entry dirPath relativeDir) entries
  end.

(** Reading the files of a plan one after the other, then throwing its
    error. *)
Definition follow (plan : Plan) : Walk unit :=
  for_each process_file (fst plan) ;;
  match snd plan with
  | Some error => walk_throw error
  | None => walk_ret tt
  end.

(** [doc] is a chunk made from the file [file] as the disk [fs] holds it. *)
Definition chunk_of (fs : FileSystem) (file : Candidate) (doc : DocumentChunk) : Prop :=
  exists fileContent,
    node fs (fullPath file) = Some (File fileContent)
    /\ embed (content doc) = Some (embedding doc)
    /\ type (metadata doc) = determineFileType (extension file)
    /\ ((content doc = fileContent /\ source (metadata doc) = relativePath file
         /\ (Z.of_nat (length fileContent) <= MAX_CHUNK_SIZE)%Z)
        \/ exists i,
            (i < length (chunkText fileContent MAX_CHUNK_SIZE))%nat
            /\ nth_error (chunkText fileContent MAX_CHUNK_SIZE) i = Some (content doc)
            /\ source (metadata doc)
               = part_source (relativePath file) (i + 1)
                             (length (chunkText fileContent MAX_CHUNK_SIZE))
            /\ (MAX_CHUNK_SIZE < Z.of_nat (length fileContent))%Z).

(** From [run] to [run'] the walk read the files [filesRead]: the disk is
    the same, the store was appended to with chunks of those files, each
    counted in [chunks], and each file counted in [files] or in [errors]. *)
Definition accounted (filesRead : list Candidate) (run run' : Run) : Prop :=
  disk (service run') = disk (service run)
  /\ exists added,
      knowledgeBase (service run') = knowledgeBase (service run) ++ added
      /\ Forall (fun doc => exists file,
                     In file filesRead /\ chunk_of (disk (service run)) file doc)
                added
      /\ chunks (stats run') = (chunks (stats run) + length added)%nat
      /\ (files (stats run') + errors (stats run')
          = files (stats run) + errors (stats run) + length filesRead)%nat
      /\ (files (stats run') <= files (stats run) + length added)%nat.

End Walk.

(** [path.join(a, b)] for segments that need no normalization, the first
    possibly empty. *)
Definition join_segments (a b : jsstring) : jsstring :=
  match a with
  | [] => b
  | _ :: _ => a ++ lit "/" ++ b
  end.

(** A repository with a source file, a document, a vendored directory, a
    file that cannot be embedded and an image. *)
Definition tree : Exception + list Dirent :=
  inr [FileEntry (lit "a.ts");
       FileEntry (lit "b.md");
       DirEntry (lit "node_modules") (inr [FileEntry (lit "c.ts")]);
       DirEntry (lit "src") (inr [FileEntry (lit "empty.js"); FileEntry (lit "logo.png")])].

Definition nodes : list (jsstring * Node) :=
  [(lit "repo", Directory);
   (lit "repo/a.ts", File (lit "export const a = 1"));
   (lit "repo/b.md", File (lit "# Title"));
   (lit "repo/node_modules/c.ts", File (lit "export {}"));
   (lit "repo/src/empty.js", File []);
   (lit "repo/src/logo.png", File (lit "PNG"))].

Definition build :=
  processRepository Runtime.embed Runtime.extname Runtime.toLowerCase join_segments.

(** The summary the build of [tree] prints. *)
Definition summary : Stats :=
  {| files := 2; chunks := 2; errors := 1;
     byType := [(lit "code", 2%nat); (lit "documentation", 1%nat)];
     largeFiles := 0; totalSize := 25 |}.

End Repository.

(* ================================================================== *)
(** * [WebhookDocUpdateAgent.initializeKnowledgeBase] *)
(* ================================================================== *)

Section Initialization.

Variable embed : jsstring -> option (list float).
Variable JSON_stringify : list DocumentChunk -> jsstring.
Variable JSON_parse : jsstring -> option (list DocumentChunk).
Variable path_extname : jsstring -> jsstring.
Variable toLowerCase : jsstring -> jsstring.
Variable path_join : jsstring -> jsstring -> jsstring.
Variable path_dirname : jsstring -> jsstring.

(** What [fs.mkdirSync(path, { recursive: true })] makes of a disk: the new
    disk, or the error it throws. *)
Variable mkdir : FileSystem -> jsstring -> Exception + FileSystem.

Definition mkdirSync (path : jsstring) : M unit :=
  fun st =>
    match mkdir (disk st) path with
    | inr fs =>
        (Return tt,
         {| knowledgeBase := knowledgeBase st; disk := fs; console := console st |})
    | inl error => (Throw error, st)
    end.

(** The first [if]: the value tells whether the function returned from
    inside the [try]. *)
Definition restore (knowledgeBasePath : jsstring) : M bool :=
  present <- existsSync knowledgeBasePath ;;
  if present : bool
  then
    try_catch
      (loadKnowledgeBase JSON_parse knowledgeBasePath ;; ret true)
      (fun error => ret false)
  else ret false.

(** The second [if].  Of its [else] branch the first warning is recorded;
    the rest of the branch only writes to the console. *)
Definition rebuild (repoPath knowledgeBasePath : jsstring)
           (listing : Exception + list Repository.Dirent) : M unit :=
  present <- existsSync repoPath ;;
  if present : bool
  then
    try_catch
      (Repository.processRepository embed path_extname toLowerCase path_join
                                    repoPath listing ;;
       let dataDir := path_dirname knowledgeBasePath in
       dirPresent <- existsSync dataDir ;;
       (if negb dirPresent then mkdirSync dataDir else ret tt) ;;
       saveKnowledgeBase JSON_stringify knowledgeBasePath)
      (fun error => ret tt)
  else console_write WARN (RepositoryPathNotFound repoPath).

(** [initializeKnowledgeBase()], for the agent's [repoPath] and
    [knowledgeBasePath] and the tree [fs.readdirSync] shows under
    [repoPath]. *)
Definition initializeKnowledgeBase (repoPath knowledgeBasePath : jsstring)
           (listing : Exception + list Repository.Dirent) : M unit :=
  loaded <- restore knowledgeBasePath ;;
  if loaded : bool then ret tt else rebuild repoPath knowledgeBasePath listing.

(** A snapshot that cannot be restored: nothing at the path, a directory,
    or a file that does not parse. *)
Definition unusable (fs : FileSystem) (knowledgeBasePath : jsstring) : Prop :=
  forall data,
    node fs knowledgeBasePath = Some (File data) -> JSON_parse data = None.

End Initialization.

Module Startup.

(** [path.dirname(p)] for POSIX paths. *)
Record DirnameScan := {
  end_ : option nat;
  matchedSlash : bool
}.

Definition dirname_step (scan : DirnameScan) (ic : nat * N) : DirnameScan :=
  match end_ scan with
  | Some _ => scan
  | None =>
      if (snd ic =? 47)%N
      then if matchedSlash scan then scan
           else {| end_ := Some (fst ic); matchedSlash := false |}
      else {| end_ := None; matchedSlash := false |}
  end.

Definition dirname (p : jsstring) : jsstring :=
  match p with
  | [] => lit "."
  | first :: rest =>
      let hasRoot := (first =? 47)%N in
      let final :=
        fold_left dirname_step (rev (combine (seq 1 (length rest)) rest))
                  {| end_ := None; matchedSlash := true |} in
      match end_ final with
      | None => if hasRoot then lit "/" else lit "."
      | Some e => if (hasRoot && (e =? 1)%nat)%bool then lit "//" else substring p 0 e
      end
  end.

(** [fs.mkdirSync(path, { recursive: true })] on a disk that holds the
    parent: the directory is there afterwards. *)
Definition mkdir (fs : FileSystem) (path : jsstring) : Exception + FileSystem :=
  match node fs path with
  | Some (File _) => inl (EACCES path)
  | Some Directory => inr fs
  | None =>
      inr {| node := fun q => if jsstring_eqb q path then Some Directory else node fs q;
             writable := writable fs |}
  end.

(** The repository of [Repository.nodes] beside a snapshot that does not
    parse. *)
Definition nodes : list (jsstring * Node) :=
  Repository.nodes
  ++ [(lit "data", Directory); (lit "data/knowledge.json", File (lit "{ oops"))].

End Startup.

(* ================================================================== *)
(** * Reading the replies of the language model

    [generatePullRequestContent] and [findRelevantDocs] end by taking apart
    the text the model returned.  The text is an input here. *)
(* ================================================================== *)

Module Replies.

(** [s.split(sep)] for a separator of one code unit. *)
Fixpoint split_on (sep : N) (s : jsstring) : list jsstring :=
  match s with
  | [] => [[]]
  | c :: s' =>
      if (c =? sep)%N then [] :: split_on sep s'
      else match split_on sep s' with
           | l :: ls => (c :: l) :: ls
           | [] => [[c]]
           end
  end.

(** [s.replace(pattern, replacement)] for a string pattern and a
    replacement without [$]: the first occurrence is replaced. *)
Fixpoint replace_first (pattern replacement s : jsstring) : jsstring :=
  match starts_with pattern s with
  | Some rest => replacement ++ rest
  | None =>
      match s with
      | [] => []
      | c :: s' => c :: replace_first pattern replacement s'
      end
  end.

Record PullRequestContent := {
  title : jsstring;
  body : jsstring
}.

(** The object [prContent] of [generatePullRequestContent], for the text
    the model returned; [split] gives at least one string, so [title] is
    always bound. *)
Definition pull_request_content (text : jsstring) : PullRequestContent :=
  match split_on LF text with
  | title :: bodyLines =>
      {| title := trim (replace_first (lit "Title: ") [] title);
         body := trim (join [LF] bodyLines) |}
  | [] => {| title := []; body := [] |}
  end.

Record Doc := {
  path : jsstring;
  content : jsstring
}.

(** The constant [paths] of [findRelevantDocs]. *)
Definition reply_paths (analysis : jsstring) : list jsstring :=
  filter (fun line => (0 <? length line)%nat) (map trim (split_on LF analysis)).

(** [docs.find((d) => d.path === path)] *)
Definition find_doc (docs : list Doc) (p : jsstring) : option Doc :=
  find (fun d => jsstring_eqb (path d) p) docs.

(** The value [findRelevantDocs] returns, for the text the model
    returned. *)
Definition relevant_docs (analysis : jsstring) (docs : list Doc) : list Doc :=
  map (fun p =>
         {| path := p;
            content := match find_doc docs p with
                       | Some doc => content doc
                       | None => []
                       end |})
      (reply_paths analysis).

End Replies.


(* ################################################################## *)
(** * Part II: its properties *)
(* ################################################################## *)

(* ================================================================== *)
(** * Facts about strings *)
(* ================================================================== *)

Section StringFacts.


Lemma dropWhile_suffix {A} (p : A -> bool) (l : list A) :
  exists pre, l = pre ++ dropWhile p l /\ forallb p pre = true.
Proof.
  induction l as [|x l [pre [E F]]]; simpl.
  - exists []. split; reflexivity.
  - destruct (p x) eqn:P.
    + exists (x :: pre). simpl. rewrite P, F. split; [f_equal; exact E | reflexivity].
    + exists []. split; reflexivity.
Qed.





Lemma strip_ws_app (a b : jsstring) : strip_ws (a ++ b) = strip_ws a ++ strip_ws b.
Proof. apply filter_app. Qed.

Lemma strip_ws_all_ws (s : jsstring) :
  forallb isWhiteSpace s = true -> strip_ws s = [].
Proof.
  induction s as [|c s IH]; simpl; [reflexivity|].
  intros H. apply andb_prop in H as [W R]. rewrite W. simpl. auto.
Qed.

Lemma strip_ws_dropWhile (s : jsstring) :
  strip_ws (dropWhile isWhiteSpace s) = strip_ws s.
Proof.
  induction s as [|c s IH]; simpl; [reflexivity|].
  destruct (isWhiteSpace c) eqn:W; simpl; [exact IH | rewrite W; reflexivity].
Qed.

Lemma strip_ws_rev (s : jsstring) : strip_ws (rev s) = rev (strip_ws s).
Proof.
  induction s as [|c s IH]; simpl; [reflexivity|].
  rewrite strip_ws_app, IH. simpl.
  destruct (isWhiteSpace c); simpl; [apply app_nil_r | reflexivity].
Qed.

Lemma strip_ws_trim (s : jsstring) : strip_ws (trim s) = strip_ws s.
Proof.
  unfold trim, trimStart, trimEnd.
  rewrite strip_ws_dropWhile, strip_ws_rev, strip_ws_dropWhile, strip_ws_rev.
  apply rev_involutive.
Qed.

Lemma occurs_in_refl (s : jsstring) : occurs_in s s.
Proof. exists [], []. simpl. symmetry. apply app_nil_r. Qed.

Lemma occurs_in_trans (x y z : jsstring) :
  occurs_in x y -> occurs_in y z -> occurs_in x z.
Proof.
  intros (a & b & ->) (c & d & ->).
  exists (c ++ a), (b ++ d). repeat rewrite <- app_assoc. reflexivity.
Qed.

Lemma occurs_in_dropWhile (p : N -> bool) (s : jsstring) :
  occurs_in (dropWhile p s) s.
Proof.
  destruct (dropWhile_suffix p s) as (pre & E & _).
  exists pre, []. rewrite app_nil_r. exact E.
Qed.

Lemma occurs_in_rev (x s : jsstring) : occurs_in x s -> occurs_in (rev x) (rev s).
Proof.
  intros (a & b & ->). exists (rev b), (rev a).
  repeat rewrite rev_app_distr. rewrite app_assoc. reflexivity.
Qed.

Lemma occurs_in_trim (s : jsstring) : occurs_in (trim s) s.
Proof.
  unfold trim, trimStart, trimEnd.
  eapply occurs_in_trans; [apply occurs_in_dropWhile|].
  rewrite <- (rev_involutive s) at 2.
  apply occurs_in_rev, occurs_in_dropWhile.
Qed.




(** Lines of [split_lines]: each occurs in the text and holds no line feed;
    joined back with line feeds they keep every code unit that is not
    white space. *)
Lemma split_lines_nonempty (s : jsstring) : split_lines s <> [].
Proof.
  induction s as [|c s IH]; simpl; [discriminate|].
  destruct (c =? LF)%N; [discriminate|].
  destruct s as [|d s']; [discriminate|].
  destruct ((c =? CR)%N && (d =? LF)%N)%bool; [discriminate|].
  destruct (split_lines (d :: s')); discriminate.
Qed.

End StringFacts.

Section SplitLines.

(** Induction following the cases of [split_lines]. *)
Lemma split_lines_cases (P : jsstring -> list jsstring -> Prop) :
  P [] [[]] ->
  (forall s', P s' (split_lines s') -> P (LF :: s') ([] :: split_lines s')) ->
  (forall s'', P s'' (split_lines s'') ->
               P (CR :: LF :: s'') ([] :: split_lines s'')) ->
  (forall c s' l ls,
      c <> LF ->
      split_lines s' = l :: ls -> P s' (l :: ls) ->
      P (c :: s') ((c :: l) :: ls)) ->
  forall s, P s (split_lines s).
Proof.
  intros Hnil Hlf Hcrlf Hchar s.
  remember (length s) as n eqn:Hn.
  revert s Hn. induction n as [n IH] using lt_wf_ind. intros s Hn.
  destruct s as [|c s']; [exact Hnil|].
  simpl in Hn. simpl.
  destruct (c =? LF)%N eqn:E.
  - apply N.eqb_eq in E. subst c. apply Hlf. apply (IH (length s')); lia.
  - apply N.eqb_neq in E.
    destruct s' as [|d s''].
    + apply (Hchar c [] [] []); auto.
    + destruct ((c =? CR)%N && (d =? LF)%N)%bool eqn:E2.
      * apply andb_prop in E2 as [E3 E4].
        apply N.eqb_eq in E3, E4. subst c d.
        apply Hcrlf. apply (IH (length s'')); simpl in *; lia.
      * destruct (split_lines (d :: s'')) as [|l ls] eqn:EL.
        { exfalso. exact (split_lines_nonempty (d :: s'') EL). }
        apply Hchar; auto.
        rewrite <- EL. apply (IH (length (d :: s''))); simpl in *; lia.
Qed.

Lemma isWhiteSpace_LF : isWhiteSpace LF = true.
Proof. reflexivity. Qed.

Lemma isWhiteSpace_CR : isWhiteSpace CR = true.
Proof. reflexivity. Qed.




(** Splitting removes white space only. *)
Lemma strip_ws_split_lines (s : jsstring) :
  strip_ws (concat (split_lines s)) = strip_ws s.
Proof.
  apply split_lines_cases with (s := s).
  - reflexivity.
  - intros s' IH. simpl. exact IH.
  - intros s' IH. simpl. exact IH.
  - intros c s' l ls _ _ IH. simpl in *. rewrite IH. reflexivity.
Qed.

End SplitLines.

(* ================================================================== *)
(** * Properties of the chunker *)
(* ================================================================== *)

Arguments chunkByLine_step : simpl never.
Arguments boundary_step : simpl never.
Arguments push_section : simpl never.

(** Name the final state of the loop the goal speaks of. *)
Ltac destruct_loop chunks last :=
  match goal with
  | |- context [fold_left ?f ?l ?i] => destruct (fold_left f l i) as [chunks last]
  end.

Section ChunkByLine.

Variable text : jsstring.
Variable maxChunkSize : Z.








End ChunkByLine.

Section ChunkByLineContent.

Variable maxChunkSize : Z.

Lemma strip_ws_snoc_LF (l : jsstring) : strip_ws (l ++ [LF]) = strip_ws l.
Proof. rewrite strip_ws_app. simpl. apply app_nil_r. Qed.

Lemma chunkByLine_step_content (chunks : list jsstring) (currentChunk line : jsstring) :
  let st := chunkByLine_step maxChunkSize (chunks, currentChunk) line in
  strip_ws (concat (fst st) ++ snd st)
  = strip_ws (concat chunks ++ currentChunk) ++ strip_ws line.
Proof.
  unfold chunkByLine_step.
  destruct ((maxChunkSize <? Z.of_nat (length (currentChunk ++ line)))%Z
            && (0 <? length currentChunk)%nat)%bool; simpl.
  - rewrite concat_app. simpl. rewrite app_nil_r.
    repeat rewrite strip_ws_app. rewrite strip_ws_trim.
    simpl. rewrite app_nil_r. reflexivity.
  - repeat rewrite strip_ws_app. simpl. rewrite app_nil_r.
    rewrite app_assoc. reflexivity.
Qed.

Lemma chunkByLine_loop_content (lines : list jsstring) :
  forall chunks currentChunk,
    let st := fold_left (chunkByLine_step maxChunkSize) lines (chunks, currentChunk) in
    strip_ws (concat (fst st) ++ snd st)
    = strip_ws (concat chunks ++ currentChunk) ++ strip_ws (concat lines).
Proof.
  induction lines as [|l lines IH]; intros chunks cc; simpl.
  - symmetry. apply app_nil_r.
  - pose proof (chunkByLine_step_content chunks cc l) as Hs. simpl in Hs.
    destruct (chunkByLine_step maxChunkSize (chunks, cc) l) as [chunks' cc'].
    simpl in Hs. rewrite IH, Hs, (strip_ws_app l), app_assoc. reflexivity.
Qed.

(** [chunkByLine] neither drops, duplicates nor reorders a code unit that
    is not white space. *)
Lemma chunkByLine_content (text : jsstring) :
  strip_ws (concat (chunkByLine text maxChunkSize)) = strip_ws text.
Proof.
  unfold chunkByLine.
  pose proof (chunkByLine_loop_content (split_lines text) [] []) as H.
  simpl in H. revert H.
  destruct_loop chunks cc. simpl. intros H.
  rewrite strip_ws_split_lines in H. rewrite <- H.
  destruct (0 <? length cc)%nat eqn:E.
  - rewrite concat_app. simpl. rewrite app_nil_r.
    repeat rewrite strip_ws_app. rewrite strip_ws_trim. reflexivity.
  - apply Nat.ltb_ge in E. destruct cc; [|simpl in E; lia].
    rewrite app_nil_r. reflexivity.
Qed.

End ChunkByLineContent.

Section ChunkText.

Variable text : jsstring.
Variable maxChunkSize : Z.





Lemma chunkText_at_fallback_content (matches : list nat) :
  (length matches <= 1)%nat ->
  strip_ws (concat (chunkText_at matches text maxChunkSize)) = strip_ws text.
Proof.
  intros Hm. unfold chunkText_at.
  destruct (Z.of_nat (length text) <=? maxChunkSize)%Z.
  - simpl. rewrite app_nil_r. reflexivity.
  - destruct (1 <? length matches)%nat eqn:E.
    + apply Nat.ltb_lt in E. lia.
    + apply chunkByLine_content.
Qed.

End ChunkText.

(** ** Theorems about the chunker *)


(** An oversized line between two short ones comes out whole. *)
Example chunkText_oversized_line :
  chunkText (lit "ab" ++ [LF] ++ lit "0123456789" ++ [LF] ++ lit "cd") 5
  = [lit "ab"; lit "0123456789"; lit "cd"].
Proof. vm_compute. reflexivity. Qed.

(** Two declarations: the text is cut where the second one starts. *)
Example chunkText_boundaries :
  chunkText (lit "function f() { return 1 } function g() { return 2 }") 30
  = [lit "function f() { return 1 }"; lit "function g() { return 2 }"].
Proof. vm_compute. reflexivity. Qed.

(** C7. For a text longer than [maxChunkSize] in which the boundary pattern
    matches at most once, the chunks concatenated give back the text once
    white space is ignored: no other code unit is dropped, duplicated or
    moved. *)
Theorem chunkText_fallback_preserves_content (text : jsstring) (maxChunkSize : Z) :
  (maxChunkSize < Z.of_nat (length text))%Z ->
  (length (Pattern.matchAll text) <= 1)%nat ->
  strip_ws (concat (chunkText text maxChunkSize)) = strip_ws text.
Proof.
  intros _ Hm. apply chunkText_at_fallback_content. exact Hm.
Qed.

Lemma chunkText_fallback_preserves_content_witness :
  let text := lit "alpha beta" ++ [CR; LF] ++ lit "  gamma" ++ [LF] ++ lit "function x" in
  chunkText text 8 = [lit "alpha beta"; lit "gamma"; lit "function x"]
  /\ strip_ws (concat (chunkText text 8)) = strip_ws text.
Proof.
  split; [vm_compute; reflexivity|].
  apply chunkText_fallback_preserves_content; vm_compute; [reflexivity | lia].
Defined.

(** C2, on the code.  [chunkByLine] tests [currentChunk.length > 0] before
    trimming and pushes [currentChunk.trim()], so a buffer holding only white
    space is emitted as an empty chunk; [chunkText] tests [section.length > 0]
    after trimming.  A one-line file longer than [MAX_CHUNK_SIZE] that ends
    with a line feed yields a final empty chunk. *)
Theorem chunkText_emits_empty_chunk :
  chunkText (repeat 97%N (8 * 1000 + 1) ++ [LF]) MAX_CHUNK_SIZE
  = [repeat 97%N (8 * 1000 + 1); []]
  /\ chunkText (lit "aaaa" ++ [LF]) 3 = [lit "aaaa"; []]
  /\ chunkByLine ([LF] ++ lit "aaaa") 3 = [[]; lit "aaaa"].
Proof. split; [|split]; vm_compute; reflexivity. Qed.

(* ================================================================== *)
(** * Facts about [sort] *)
(* ================================================================== *)

Section SortFacts.

Context {A : Type} (comparefn : A -> A -> float).


Lemma consistent_on_incl (xs ys : list A) :
  incl xs ys -> consistent_on comparefn ys -> consistent_on comparefn xs.
Proof.
  intros Hi [Ht Hr]. split.
  - intros x y Hx Hy. apply Ht; apply Hi; assumption.
  - intros x y z Hx Hy Hz. apply Hr; apply Hi; assumption.
Qed.

Lemma sort_cons (x : A) (l : list A) :
  sort comparefn (x :: l) = sort_insert comparefn x (sort comparefn l).
Proof. reflexivity. Qed.

Lemma sort_insert_perm (x : A) (l : list A) :
  Permutation (sort_insert comparefn x l) (x :: l).
Proof.
  induction l as [|y l IH]; simpl; [reflexivity|].
  destruct (sorts_after comparefn x y); [|reflexivity].
  rewrite IH. apply perm_swap.
Qed.

Lemma sort_perm (l : list A) : Permutation (sort comparefn l) l.
Proof.
  induction l as [|x l IH]; [reflexivity|].
  rewrite sort_cons, sort_insert_perm. constructor. exact IH.
Qed.

Lemma sort_In (l : list A) (x : A) : In x (sort comparefn l) <-> In x l.
Proof.
  split; apply Permutation_in; [apply sort_perm | symmetry; apply sort_perm].
Qed.

Lemma sort_length (l : list A) : length (sort comparefn l) = length l.
Proof. apply Permutation_length, sort_perm. Qed.






End SortFacts.

Lemma sort_map {A B} (f : A -> B) (cmpA : A -> A -> float) (cmpB : B -> B -> float)
      (l : list A) :
  (forall a b, cmpB (f a) (f b) = cmpA a b) ->
  sort cmpB (map f l) = map f (sort cmpA l).
Proof.
  intros Hc. induction l as [|x l IH]; [reflexivity|].
  cbn [map]. rewrite !sort_cons, IH.
  generalize (sort cmpA l) as s. clear IH.
  induction s as [|y s IHs]; simpl; [reflexivity|].
  unfold sorts_after. rewrite Hc.
  destruct (0 <? cmpA x y)%float; simpl; [rewrite IHs|]; reflexivity.
Qed.

Lemma slice0_map {A B} (f : A -> B) (l : list A) (end_ : Z) :
  slice0 (map f l) end_ = map f (slice0 l end_).
Proof.
  unfold slice0. rewrite length_map. apply firstn_map.
Qed.

Lemma slice0_length {A} (l : list A) (end_ : Z) :
  (0 <= end_)%Z -> (Z.of_nat (length (slice0 l end_)) <= end_)%Z.
Proof.
  intros H. unfold slice0.
  destruct (end_ <? 0)%Z eqn:E; [apply Z.ltb_lt in E; lia|].
  rewrite length_firstn. lia.
Qed.

Lemma slice0_prefix {A} (l : list A) (end_ : Z) :
  exists dropped, l = slice0 l end_ ++ dropped.
Proof.
  unfold slice0. eexists. symmetry. apply firstn_skipn.
Qed.

(** A comparator that returns [NaN] is not consistent, and then nothing is
    promised about the order (it is implementation-defined); here the array
    is left as it was. *)
Example sort_with_nan :
  sort (fun a b => (b - a)%float) [1; nan; 2]%float = [1; nan; 2]%float
  /\ consistentb (fun a b => (b - a)%float) [1; nan; 2]%float = false.
Proof. split; vm_compute; reflexivity. Qed.

Example sort_descending :
  sort (fun a b => (b - a)%float) [1; 3; 2; 3]%float = [3; 3; 2; 1]%float
  /\ consistentb (fun a b => (b - a)%float) [1; 3; 2; 3]%float = true.
Proof. split; vm_compute; reflexivity. Qed.

(* ================================================================== *)
(** * Properties of the knowledge store, the retriever and the updater *)
(* ================================================================== *)

Section ServiceFacts.

Variable embed : jsstring -> option (list float).
Variable cosineSimilarity : list float -> list float -> option float.
Variable JSON_stringify : list DocumentChunk -> jsstring.
Variable JSON_parse : jsstring -> option (list DocumentChunk).
Variable path_extname : jsstring -> jsstring.
Variable toLowerCase : jsstring -> jsstring.
Variable path_join : jsstring -> jsstring -> jsstring.

Local Abbreviation addToKnowledgeBase := (addToKnowledgeBase embed).
Local Abbreviation saveKnowledgeBase := (saveKnowledgeBase JSON_stringify).
Local Abbreviation loadKnowledgeBase := (loadKnowledgeBase JSON_parse).
Local Abbreviation is_code_entry := (is_code_entry path_extname toLowerCase).
Local Abbreviation score_all := (score_all cosineSimilarity).
Local Abbreviation relevant_results :=
  (relevant_results embed cosineSimilarity path_extname toLowerCase).
Local Abbreviation getRelevantContext :=
  (getRelevantContext embed cosineSimilarity path_extname toLowerCase).
Local Abbreviation add_parts := (add_parts embed).
Local Abbreviation ingest_changed_file :=
  (ingest_changed_file embed path_extname toLowerCase).
Local Abbreviation update_step := (update_step embed path_extname toLowerCase path_join).
Local Abbreviation update_loop := (update_loop embed path_extname toLowerCase path_join).
Local Abbreviation updateKnowledgeBase :=
  (updateKnowledgeBase embed JSON_stringify path_extname toLowerCase path_join).

(* ------------------------------------------------------------------ *)
(** ** Persistence: [saveKnowledgeBase] and [loadKnowledgeBase] *)

Lemma jsstring_eqb_eq (a b : jsstring) : jsstring_eqb a b = true <-> a = b.
Proof.
  unfold jsstring_eqb. destruct (list_eq_dec N.eq_dec a b); split; congruence.
Qed.

Lemma write_on_same (fs : FileSystem) (path data : jsstring) :
  node (write_on fs path data) path = Some (File data).
Proof.
  simpl. destruct (jsstring_eqb path path) eqn:E; [reflexivity|].
  assert (H : jsstring_eqb path path = true) by (apply jsstring_eqb_eq; reflexivity).
  congruence.
Qed.

Lemma write_on_other (fs : FileSystem) (path data q : jsstring) :
  q <> path -> node (write_on fs path data) q = node fs q.
Proof.
  intros H. simpl. destruct (jsstring_eqb q path) eqn:E; [|reflexivity].
  apply jsstring_eqb_eq in E. contradiction.
Qed.

Lemma saveKnowledgeBase_empty (filePath : jsstring) (st : State) :
  knowledgeBase st = [] ->
  saveKnowledgeBase filePath st
  = (Return tt,
     {| knowledgeBase := knowledgeBase st; disk := disk st;
        console := console st ++ [(LOG, NothingToSave)] |}).
Proof.
  intros H. unfold saveKnowledgeBase, bind, get_knowledgeBase.
  destruct (knowledgeBase st) eqn:E; [|discriminate].
  cbn [length Nat.eqb]. unfold console_write. rewrite E. reflexivity.
Qed.

Lemma saveKnowledgeBase_nonempty (filePath : jsstring) (st : State) :
  knowledgeBase st <> [] ->
  node (disk st) filePath <> Some Directory ->
  writable (disk st) filePath = true ->
  saveKnowledgeBase filePath st
  = (Return tt,
     {| knowledgeBase := knowledgeBase st;
        disk := write_on (disk st) filePath (JSON_stringify (knowledgeBase st));
        console := console st |}).
Proof.
  intros Hne Hdir Hw. unfold saveKnowledgeBase, bind, get_knowledgeBase, writeFileSync.
  destruct (knowledgeBase st) as [|c kb] eqn:E; [congruence|]. cbn [length Nat.eqb].
  destruct (node (disk st) filePath) as [[data|]|]; try congruence;
    rewrite Hw, E; reflexivity.
Qed.

Lemma loadKnowledgeBase_present (filePath data : jsstring) (st : State) :
  node (disk st) filePath = Some (File data) ->
  loadKnowledgeBase filePath st
  = match JSON_parse data with
    | Some kb =>
        (Return tt, {| knowledgeBase := kb; disk := disk st; console := console st |})
    | None => (Throw SyntaxError, st)
    end.
Proof.
  intros H. unfold loadKnowledgeBase, bind, existsSync, exists_on.
  rewrite H. unfold readFileSync. rewrite H.
  destruct (JSON_parse data); reflexivity.
Qed.

Lemma loadKnowledgeBase_absent (filePath : jsstring) (st : State) :
  exists_on (disk st) filePath = false ->
  loadKnowledgeBase filePath st
  = (Return tt,
     {| knowledgeBase := knowledgeBase st; disk := disk st;
        console := console st ++ [(ERROR, KnowledgeBaseFileNotFound filePath)] |}).
Proof.
  intros H. unfold loadKnowledgeBase, bind, existsSync. rewrite H. reflexivity.
Qed.

(** C8. Saving an empty knowledge base is a guarded no-op: the warning is
    written to the console, nothing is written to disk, so a snapshot saved
    earlier stays as it is.  Saving a non-empty one replaces what the
    location held by the serialization of the whole store, and leaves every
    other location alone. *)
Theorem saveKnowledgeBase_guarded (filePath : jsstring) (st : State) :
  (knowledgeBase st = [] ->
   exists st',
     saveKnowledgeBase filePath st = (Return tt, st')
     /\ console st' = console st ++ [(LOG, NothingToSave)]
     /\ disk st' = disk st
     /\ knowledgeBase st' = knowledgeBase st)
  /\ (knowledgeBase st <> [] ->
      node (disk st) filePath <> Some Directory ->
      writable (disk st) filePath = true ->
      exists st',
        saveKnowledgeBase filePath st = (Return tt, st')
        /\ node (disk st') filePath = Some (File (JSON_stringify (knowledgeBase st)))
        /\ (forall q, q <> filePath -> node (disk st') q = node (disk st) q)
        /\ knowledgeBase st' = knowledgeBase st).
Proof.
  split.
  - intros H. eexists. split; [apply saveKnowledgeBase_empty; exact H|].
    simpl. auto.
  - intros Hne Hdir Hw. eexists.
    split; [apply saveKnowledgeBase_nonempty; assumption|].
    cbn [disk knowledgeBase]. split; [apply write_on_same|].
    split; [|reflexivity]. intros q Hq. apply write_on_other. exact Hq.
Qed.


(** C4, as the code has it.  Loading from a location that does not exist
    returns normally: the error is written to the console and the store in
    memory and the disk stay as they were.  Loading from a file whose content
    parses replaces the store in memory by the parsed one; nothing of the old
    store is kept. *)
Theorem loadKnowledgeBase_outcomes (filePath : jsstring) (st : State) :
  (exists_on (disk st) filePath = false ->
   exists st',
     loadKnowledgeBase filePath st = (Return tt, st')
     /\ console st' = console st ++ [(ERROR, KnowledgeBaseFileNotFound filePath)]
     /\ knowledgeBase st' = knowledgeBase st
     /\ disk st' = disk st)
  /\ (forall data kb,
        node (disk st) filePath = Some (File data) ->
        JSON_parse data = Some kb ->
        exists st',
          loadKnowledgeBase filePath st = (Return tt, st')
          /\ knowledgeBase st' = kb
          /\ disk st' = disk st).
Proof.
  split.
  - intros H. eexists. split; [apply loadKnowledgeBase_absent; exact H|].
    simpl. auto.
  - intros data kb Hnode Hparse. eexists.
    rewrite (loadKnowledgeBase_present filePath data st Hnode), Hparse.
    split; [reflexivity|]. simpl. auto.
Qed.

(** C10. When the snapshot file exists and its content does not parse,
    [loadKnowledgeBase] throws, and the state it leaves is the state it was
    called in: the store in memory is untouched. *)
Theorem loadKnowledgeBase_malformed (filePath data : jsstring) (st : State) :
  node (disk st) filePath = Some (File data) ->
  JSON_parse data = None ->
  loadKnowledgeBase filePath st = (Throw SyntaxError, st).
Proof.
  intros Hnode Hparse.
  rewrite (loadKnowledgeBase_present filePath data st Hnode), Hparse. reflexivity.
Qed.

(* ------------------------------------------------------------------ *)
(** ** Retrieval: [getRelevantContext] *)

Lemma score_all_documents (queryEmbedding : list float) (docs : list DocumentChunk)
      (scored : list Scored) :
  score_all queryEmbedding docs = Some scored -> map document scored = docs.
Proof.
  revert scored. induction docs as [|doc docs IH]; intros scored; simpl.
  - intros [= <-]. reflexivity.
  - destruct (cosineSimilarity queryEmbedding (embedding doc)); [|discriminate].
    destruct (score_all queryEmbedding docs); [|discriminate].
    intros [= <-]. simpl. f_equal. apply IH. reflexivity.
Qed.

Lemma score_all_retype (new_type : DocumentChunk -> jsstring)
      (queryEmbedding : list float) (docs : list DocumentChunk) :
  score_all queryEmbedding (map (retype new_type) docs)
  = option_map (map (retype_scored new_type)) (score_all queryEmbedding docs).
Proof.
  induction docs as [|doc docs IH]; simpl; [reflexivity|].
  destruct (cosineSimilarity queryEmbedding (embedding doc)); [|reflexivity].
  rewrite IH. destruct (score_all queryEmbedding docs); reflexivity.
Qed.

Lemma filter_code_retype (new_type : DocumentChunk -> jsstring) (kb : list DocumentChunk) :
  filter is_code_entry (map (retype new_type) kb)
  = map (retype new_type) (filter is_code_entry kb).
Proof.
  induction kb as [|doc kb IH]; simpl; [reflexivity|].
  change (is_code_entry (retype new_type doc)) with (is_code_entry doc).
  destruct (is_code_entry doc); simpl; rewrite IH; reflexivity.
Qed.

(** What a returning call of [relevant_results] went through. *)
Lemma relevant_results_inv (kb : list DocumentChunk) (query : jsstring)
      (maxResults : Z) (st st' : State) (results : list Scored) :
  relevant_results kb query maxResults st = (Return results, st') ->
  exists queryEmbedding scored,
    embed query = Some queryEmbedding
    /\ score_all queryEmbedding (filter is_code_entry kb) = Some scored
    /\ results = slice0 (sort by_similarity scored) maxResults
    /\ st' = st.
Proof.
  unfold relevant_results, bind, call.
  destruct (embed query) as [qe|]; [|discriminate]. cbn.
  destruct (score_all qe (filter is_code_entry kb)) as [scored|] eqn:Es;
    [|discriminate]. cbn.
  intros [= <- <-]. exists qe, scored. auto.
Qed.

Lemma relevant_results_intro (kb : list DocumentChunk) (query : jsstring)
      (maxResults : Z) (st : State) (queryEmbedding : list float) (scored : list Scored) :
  embed query = Some queryEmbedding ->
  score_all queryEmbedding (filter is_code_entry kb) = Some scored ->
  relevant_results kb query maxResults st
  = (Return (slice0 (sort by_similarity scored) maxResults), st).
Proof.
  intros He Hs. unfold relevant_results, bind, call. rewrite He. cbn.
  rewrite Hs. reflexivity.
Qed.

(** The string [getRelevantContext] returns is built from [results]. *)
Lemma getRelevantContext_results (query : jsstring) (maxResults : Z) (st : State) :
  getRelevantContext query maxResults st
  = if (length (knowledgeBase st) =? 0)%nat
    then (Return no_knowledge_base, st)
    else match relevant_results (knowledgeBase st) query maxResults st with
         | (Return results, st') =>
             (Return (join [LF; LF] (map format_result results)), st')
         | (Throw e, st') => (Throw e, st')
         end.
Proof.
  unfold getRelevantContext, bind, get_knowledgeBase.
  destruct (length (knowledgeBase st) =? 0)%nat; [reflexivity|].
  destruct (relevant_results (knowledgeBase st) query maxResults st) as [[r|e] st'];
    reflexivity.
Qed.



(** C5. A call of the retriever that returns gives at most [maxResults]
    results, each a chunk of the store whose source names a file with a code
    extension.  The stored [metadata.type] plays no part: with other types
    stored, the same chunks come back.  The string [getRelevantContext]
    returns is made of these results. *)
Theorem relevant_results_bounded_and_filtered
        (kb : list DocumentChunk) (query : jsstring) (maxResults : Z)
        (st st' : State) (results : list Scored) :
  (0 <= maxResults)%Z ->
  relevant_results kb query maxResults st = (Return results, st') ->
  (Z.of_nat (length results) <= maxResults)%Z
  /\ Forall
       (fun r =>
          In (document r) kb
          /\ array_includes code_extensions
               (toLowerCase
                  (path_extname
                     (nth 0 (split_space (source (metadata (document r)))) [])))
             = true)
       results
  /\ (forall new_type,
        relevant_results (map (retype new_type) kb) query maxResults st
        = (Return (map (retype_scored new_type) results), st'))
  /\ (knowledgeBase st = kb -> kb <> [] ->
      getRelevantContext query maxResults st
      = (Return (join [LF; LF] (map format_result results)), st')).
Proof.
  intros Hmax H.
  assert (Hctx : knowledgeBase st = kb -> kb <> [] ->
                 getRelevantContext query maxResults st
                 = (Return (join [LF; LF] (map format_result results)), st')).
  { intros Hkb Hne. rewrite getRelevantContext_results, Hkb, H.
    destruct kb; [congruence | reflexivity]. }
  destruct (relevant_results_inv _ _ _ _ _ _ H) as (qe & scored & He & Hs & -> & ->).
  split; [apply slice0_length; exact Hmax|]. split; [|split; [|exact Hctx]].
  - apply Forall_forall. intros r Hr.
    destruct (slice0_prefix (sort by_similarity scored) maxResults) as [dropped Hd].
    assert (Hin : In r (sort by_similarity scored)).
    { rewrite Hd. apply in_or_app. left. exact Hr. }
    apply sort_In in Hin.
    assert (Hdoc : In (document r) (filter is_code_entry kb)).
    { rewrite <- (score_all_documents _ _ _ Hs). apply in_map. exact Hin. }
    apply filter_In in Hdoc. exact Hdoc.
  - intros new_type.
    rewrite relevant_results_intro
      with (queryEmbedding := qe) (scored := map (retype_scored new_type) scored).
    + rewrite sort_map with (cmpA := by_similarity) by reflexivity.
      rewrite slice0_map. reflexivity.
    + exact He.
    + rewrite filter_code_retype, score_all_retype, Hs. reflexivity.
Qed.


(* ------------------------------------------------------------------ *)
(** ** Incremental update: [updateKnowledgeBase] *)

Lemma grows_refl (st : State) : grows st st.
Proof. split; [reflexivity|]. exists []. symmetry. apply app_nil_r. Qed.

Lemma grows_trans (a b c : State) : grows a b -> grows b c -> grows a c.
Proof.
  intros [Hd1 [x1 Hk1]] [Hd2 [x2 Hk2]]. split; [congruence|].
  exists (x1 ++ x2). rewrite Hk2, Hk1, app_assoc. reflexivity.
Qed.

Lemma growing_ret {A} (a : A) : growing (ret a).
Proof. intros st. apply grows_refl. Qed.

Lemma growing_throw {A} (e : Exception) : growing (@throw A e).
Proof. intros st. apply grows_refl. Qed.

Lemma growing_bind {A B} (m : M A) (k : A -> M B) :
  growing m -> (forall a, growing (k a)) -> growing (bind m k).
Proof.
  intros Hm Hk st. unfold bind. specialize (Hm st).
  destruct (m st) as [[a|e] st1]; simpl in Hm.
  - eapply grows_trans; [exact Hm | apply Hk].
  - exact Hm.
Qed.

Lemma growing_try_catch {A} (body : M A) (handler : Exception -> M A) :
  growing body -> (forall e, growing (handler e)) -> growing (try_catch body handler).
Proof.
  intros Hb Hh st. unfold try_catch. specialize (Hb st).
  destruct (body st) as [[a|e] st1]; simpl in Hb.
  - exact Hb.
  - eapply grows_trans; [exact Hb | apply Hh].
Qed.

Lemma growing_call {A} (e : Exception) (r : option A) : growing (call e r).
Proof. destruct r; [apply growing_ret | apply growing_throw]. Qed.

Lemma growing_console_write (level : Level) (message : Message) :
  growing (console_write level message).
Proof. intros st. split; [reflexivity|]. exists []. simpl. symmetry. apply app_nil_r. Qed.

Lemma growing_existsSync (path : jsstring) : growing (existsSync path).
Proof. intros st. apply grows_refl. Qed.

Lemma growing_readFileSync (path : jsstring) : growing (readFileSync path).
Proof.
  intros st. unfold readFileSync.
  destruct (node (disk st) path) as [[data|]|]; apply grows_refl.
Qed.

Lemma growing_addToKnowledgeBase (content : jsstring) (metadata : Metadata) :
  growing (addToKnowledgeBase content metadata).
Proof.
  unfold addToKnowledgeBase. apply growing_bind; [apply growing_call|].
  intros embedding st. split; [reflexivity|]. eexists. reflexivity.
Qed.

Lemma growing_add_parts (filePath fileType : jsstring) (total : nat)
      (chunks : list jsstring) :
  forall i, growing (add_parts filePath fileType total i chunks).
Proof.
  induction chunks as [|chunk rest IH]; intros i; simpl.
  - apply growing_ret.
  - apply growing_bind; [apply growing_addToKnowledgeBase|]. intros _. apply IH.
Qed.

Lemma growing_ingest_changed_file (filePath fullPath : jsstring) :
  growing (ingest_changed_file filePath fullPath).
Proof.
  unfold ingest_changed_file. apply growing_bind; [apply growing_readFileSync|].
  intros content.
  destruct (array_includes ingested_extensions (toLowerCase (path_extname filePath)));
    [|apply growing_ret].
  apply growing_bind; [|intros _; apply growing_ret].
  destruct (MAX_CHUNK_SIZE <? Z.of_nat (length content))%Z;
    [apply growing_add_parts | apply growing_addToKnowledgeBase].
Qed.

Lemma growing_update_step (repoPath : jsstring) (updated : bool) (filePath : jsstring) :
  growing (update_step repoPath updated filePath).
Proof.
  unfold update_step. destruct (excluded_path filePath); [apply growing_ret|].
  apply growing_bind; [apply growing_existsSync|]. intros [|]; [|apply growing_ret].
  apply growing_try_catch.
  - apply growing_bind; [apply growing_ingest_changed_file|].
    intros reached. apply growing_ret.
  - intros e. apply growing_bind; [apply growing_console_write|].
    intros _. apply growing_ret.
Qed.

Lemma growing_update_loop (repoPath : jsstring) (changedFiles : list jsstring) :
  forall updated, growing (update_loop repoPath changedFiles updated).
Proof.
  induction changedFiles as [|filePath rest IH]; intros updated; simpl.
  - apply growing_ret.
  - apply growing_bind; [apply growing_update_step|]. exact IH.
Qed.

(** A path that names nothing on disk is skipped: the iteration returns
    [updated] as it was and changes nothing. *)
Lemma update_step_missing (repoPath : jsstring) (updated : bool)
      (filePath : jsstring) (st : State) :
  exists_on (disk st) (path_join repoPath filePath) = false ->
  update_step repoPath updated filePath st = (Return updated, st).
Proof.
  intros H. unfold update_step.
  destruct (excluded_path filePath); [reflexivity|].
  unfold bind, existsSync. rewrite H. reflexivity.
Qed.

Lemma update_loop_missing (repoPath : jsstring) (before after : list jsstring)
      (filePath : jsstring) :
  forall updated st,
    exists_on (disk st) (path_join repoPath filePath) = false ->
    update_loop repoPath (before ++ filePath :: after) updated st
    = update_loop repoPath (before ++ after) updated st.
Proof.
  induction before as [|p before IH]; intros updated st H.
  - cbn [app update_loop]. unfold bind at 1.
    rewrite (update_step_missing repoPath updated filePath st H). reflexivity.
  - cbn [app update_loop]. unfold bind.
    pose proof (growing_update_step repoPath updated p st) as [Hd _].
    destruct (update_step repoPath updated p st) as [[u|e] st1]; [|reflexivity].
    simpl in Hd. apply IH. rewrite Hd. exact H.
Qed.

(** [saveKnowledgeBase] does not touch the store in memory. *)
Lemma saveKnowledgeBase_keeps_store (filePath : jsstring) (st : State) :
  knowledgeBase (snd (saveKnowledgeBase filePath st)) = knowledgeBase st.
Proof.
  unfold saveKnowledgeBase, bind, get_knowledgeBase.
  destruct (length (knowledgeBase st) =? 0)%nat; [reflexivity|].
  unfold writeFileSync.
  destruct (node (disk st) filePath) as [[data|]|];
    try reflexivity; destruct (writable (disk st) filePath); reflexivity.
Qed.

Lemma updateKnowledgeBase_appends (repoPath knowledgeBasePath : jsstring)
      (changedFiles : list jsstring) (st : State) :
  exists added,
    knowledgeBase (snd (updateKnowledgeBase repoPath knowledgeBasePath changedFiles st))
    = knowledgeBase st ++ added.
Proof.
  unfold updateKnowledgeBase, bind, existsSync.
  destruct (negb (exists_on (disk st) repoPath)).
  - exists []. simpl. symmetry. apply app_nil_r.
  - pose proof (growing_update_loop repoPath changedFiles false st) as [_ Hk].
    destruct (update_loop repoPath changedFiles false st) as [[[|]|e] st1];
      simpl in Hk; try exact Hk.
    rewrite saveKnowledgeBase_keeps_store. exact Hk.
Qed.

(** C9. A changed path that names nothing on disk is skipped: its iteration
    neither throws nor adds a chunk, so the update runs exactly as it does
    without that path in the list; and whatever the list, every chunk the
    store held before the call is still there afterwards, unchanged and in
    place, the new chunks coming after them. *)
Theorem updateKnowledgeBase_missing_path
        (repoPath knowledgeBasePath : jsstring) (before after : list jsstring)
        (filePath : jsstring) (st : State) :
  exists_on (disk st) (path_join repoPath filePath) = false ->
  (forall updated, update_step repoPath updated filePath st = (Return updated, st))
  /\ updateKnowledgeBase repoPath knowledgeBasePath (before ++ filePath :: after) st
     = updateKnowledgeBase repoPath knowledgeBasePath (before ++ after) st
  /\ exists added,
      knowledgeBase
        (snd (updateKnowledgeBase repoPath knowledgeBasePath
                                  (before ++ filePath :: after) st))
      = knowledgeBase st ++ added.
Proof.
  intros H. split; [|split].
  - intros updated. apply update_step_missing. exact H.
  - unfold updateKnowledgeBase, bind, existsSync.
    destruct (negb (exists_on (disk st) repoPath)); [reflexivity|].
    rewrite (update_loop_missing repoPath before after filePath false st H).
    reflexivity.
  - apply updateKnowledgeBase_appends.
Qed.

End ServiceFacts.

(* ================================================================== *)
(** * The properties on the concrete store and disk *)
(* ================================================================== *)

Import Scenario.


Example context_of_store :
  fst (getRelevantContext Runtime.embed Runtime.cosineSimilarity
                          Runtime.extname Runtime.toLowerCase
                          (lit "id") 2 (world store []))
  = Return (lit "[src/first.ts] xy" ++ [LF; LF]
            ++ lit "[src/second.ts (part 1/2)] ab").
Proof. vm_compute. reflexivity. Qed.


(** C8 on an empty store next to an earlier snapshot, and on the store. *)
Lemma saveKnowledgeBase_guarded_witness :
  (exists st',
      save snapshot (world [] [(snapshot, File (Runtime.stringify store))])
      = (Return tt, st')
      /\ console st' = [(LOG, NothingToSave)]
      /\ disk st' = disk_of [(snapshot, File (Runtime.stringify store))]
      /\ knowledgeBase st' = [])
  /\ (exists st',
         save snapshot (world store [(snapshot, File (lit "[]"))]) = (Return tt, st')
         /\ node (disk st') snapshot = Some (File (Runtime.stringify store))
         /\ (forall q, q <> snapshot ->
                       node (disk st') q
                       = node (disk_of [(snapshot, File (lit "[]"))]) q)
         /\ knowledgeBase st' = store).
Proof.
  split.
  - apply (proj1 (saveKnowledgeBase_guarded
                    Runtime.stringify snapshot
                    (world [] [(snapshot, File (Runtime.stringify store))]))).
    reflexivity.
  - apply (proj2 (saveKnowledgeBase_guarded
                    Runtime.stringify snapshot
                    (world store [(snapshot, File (lit "[]"))]))).
    + discriminate.
    + vm_compute. discriminate.
    + reflexivity.
Defined.

(** C4 as stated fails: with no file at the location, the call returns. *)
Lemma loadKnowledgeBase_missing_returns_normally :
  exists_on (disk (world store [])) snapshot = false
  /\ load snapshot (world store [])
     = (Return tt,
        {| knowledgeBase := store; disk := disk_of [];
           console := [(ERROR, KnowledgeBaseFileNotFound snapshot)] |}).
Proof. split; reflexivity. Qed.

(** C4 as the code has it: no file at the location, then a snapshot of one
    chunk loaded over a store of four. *)
Lemma loadKnowledgeBase_outcomes_witness :
  (exists st',
      load snapshot (world store []) = (Return tt, st')
      /\ console st' = [(ERROR, KnowledgeBaseFileNotFound snapshot)]
      /\ knowledgeBase st' = store
      /\ disk st' = disk_of [])
  /\ (exists st',
         load snapshot (world store [(snapshot, File (Runtime.stringify [readme]))])
         = (Return tt, st')
         /\ knowledgeBase st' = [readme]
         /\ disk st' = disk_of [(snapshot, File (Runtime.stringify [readme]))]).
Proof.
  split.
  - apply (proj1 (loadKnowledgeBase_outcomes Runtime.parse snapshot (world store []))).
    reflexivity.
  - apply (proj2 (loadKnowledgeBase_outcomes
                    Runtime.parse snapshot
                    (world store [(snapshot, File (Runtime.stringify [readme]))]))
             (Runtime.stringify [readme]) [readme]).
    + reflexivity.
    + vm_compute. reflexivity.
Defined.

(** C10 on a snapshot cut short. *)
Lemma loadKnowledgeBase_malformed_witness :
  load snapshot (world store [(snapshot, File (lit "[{ content: "))])
  = (Throw SyntaxError, world store [(snapshot, File (lit "[{ content: "))]).
Proof.
  apply (loadKnowledgeBase_malformed Runtime.parse snapshot (lit "[{ content: ")).
  - reflexivity.
  - vm_compute. reflexivity.
Defined.

(** C5 on the store, two results asked for. *)
Lemma relevant_results_bounded_and_filtered_witness :
  (Z.of_nat (length [scored first_ts; scored second_ts]) <= 2)%Z
  /\ Forall
       (fun r =>
          In (document r) store
          /\ array_includes code_extensions
               (Runtime.toLowerCase
                  (Runtime.extname
                     (nth 0 (split_space (source (metadata (document r)))) [])))
             = true)
       [scored first_ts; scored second_ts]
  /\ (forall new_type,
        relevant (map (retype new_type) store) (lit "id") 2 (world store [])
        = (Return (map (retype_scored new_type) [scored first_ts; scored second_ts]),
           world store []))
  /\ (knowledgeBase (world store []) = store -> store <> [] ->
      getRelevantContext Runtime.embed Runtime.cosineSimilarity
                         Runtime.extname Runtime.toLowerCase
                         (lit "id") 2 (world store [])
      = (Return (join [LF; LF]
                      (map format_result [scored first_ts; scored second_ts])),
         world store [])).
Proof.
  apply (relevant_results_bounded_and_filtered
           Runtime.embed Runtime.cosineSimilarity Runtime.extname Runtime.toLowerCase
           store (lit "id") 2 (world store []) (world store [])).
  - lia.
  - vm_compute. reflexivity.
Defined.



(** C9 on the repository: the second changed path names nothing on disk. *)
Example update_with_missing_path :
  map (fun doc => source (metadata doc))
      (knowledgeBase
         (snd (update (lit "repo") snapshot
                      [lit "src/add.ts"; lit "src/gone.ts"]
                      (world [readme] repository))))
  = [lit "README.md"; lit "src/add.ts"].
Proof. vm_compute. reflexivity. Qed.

Lemma updateKnowledgeBase_missing_path_witness :
  (forall updated,
      update_step Runtime.embed Runtime.extname Runtime.toLowerCase Runtime.join_path
                  (lit "repo") updated (lit "src/gone.ts") (world [readme] repository)
      = (Return updated, world [readme] repository))
  /\ update (lit "repo") snapshot [lit "src/add.ts"; lit "src/gone.ts"]
            (world [readme] repository)
     = update (lit "repo") snapshot [lit "src/add.ts"] (world [readme] repository)
  /\ exists added,
      knowledgeBase
        (snd (update (lit "repo") snapshot [lit "src/add.ts"; lit "src/gone.ts"]
                     (world [readme] repository)))
      = [readme] ++ added.
Proof.
  apply (updateKnowledgeBase_missing_path
           Runtime.embed Runtime.stringify Runtime.extname Runtime.toLowerCase
           Runtime.join_path (lit "repo") snapshot
           [lit "src/add.ts"] [] (lit "src/gone.ts") (world [readme] repository)).
  vm_compute. reflexivity.
Defined.

(* ################################################################## *)
(** * Part III: further properties of the code *)
(* ################################################################## *)

(* ================================================================== *)
(** * The chunker on every text *)
(* ================================================================== *)

Section PatternFacts.

(** The offsets [matchAll] yields lie in the text and increase strictly. *)
Lemma matchAll_from_offsets (s : jsstring) :
  forall pos skip,
    Forall (fun o => pos <= o < pos + length s)%nat (Pattern.matchAll_from s pos skip)
    /\ StronglySorted lt (Pattern.matchAll_from s pos skip).
Proof.
  induction s as [|c s IH]; intros pos skip; simpl.
  - split; constructor.
  - assert (Hrec : forall k,
               Forall (fun o => pos < o < pos + S (length s))%nat
                      (Pattern.matchAll_from s (S pos) k)).
    { intros k. destruct (IH (S pos) k) as [Hb _].
      revert Hb. apply Forall_impl. intros o Ho. lia. }
    destruct skip as [|k].
    + destruct (Pattern.match_here (c :: s)) as [len|].
      * split.
        -- constructor; [lia|]. generalize (Hrec (len - 1)%nat).
           apply Forall_impl. intros o Ho. lia.
        -- constructor; [apply IH|]. generalize (Hrec (len - 1)%nat).
           apply Forall_impl. intros o Ho. lia.
      * split; [|apply IH]. generalize (Hrec 0%nat).
        apply Forall_impl. intros o Ho. lia.
    + split; [|apply IH]. generalize (Hrec k).
      apply Forall_impl. intros o Ho. lia.
Qed.

Lemma starts_with_head (p : N) (prefix s r : jsstring) :
  starts_with (p :: prefix) s = Some r -> exists s', s = p :: s'.
Proof.
  destruct s as [|c s']; simpl; [discriminate|].
  destruct (p =? c)%N eqn:E; [|discriminate].
  apply N.eqb_eq in E. subst c. intros _. exists s'. reflexivity.
Qed.

Lemma orelse_Some {A} (a b : option A) (x : A) :
  Pattern.orelse a b = Some x -> a = Some x \/ b = Some x.
Proof. destruct a; simpl; auto. Qed.

(** Where the pattern matches, the text starts with a code unit that is not
    white space: a slash or the first letter of a word of the pattern. *)
Lemma match_here_head (s : jsstring) (len : nat) :
  Pattern.match_here s = Some len ->
  exists c s', s = c :: s' /\ isWhiteSpace c = false.
Proof.
  assert (Hw : forall (w : jsstring) (p : N) (k : jsstring -> option nat) (t : jsstring) (n : nat),
             isWhiteSpace p = false ->
             (forall m, k t = Some m -> exists c s', t = c :: s' /\ isWhiteSpace c = false) ->
             Pattern.optional_word (p :: w) k t = Some n ->
             exists c s', t = c :: s' /\ isWhiteSpace c = false).
  { intros w p k t n Hp Hk H. unfold Pattern.optional_word in H.
    apply orelse_Some in H as [H|H]; [|eauto].
    destruct (starts_with (p :: w) t) as [r|] eqn:E; [|discriminate].
    apply starts_with_head in E as [s' ->]. eauto. }
  assert (Hkw : forall t m, Pattern.keyword_rest t = Some m ->
                            exists c s', t = c :: s' /\ isWhiteSpace c = false).
  { intros t m H. unfold Pattern.keyword_rest, Pattern.keywords in H.
    cbn [fold_right] in H.
    repeat (apply orelse_Some in H as [H|H];
            [ match type of H with
              | match starts_with ?kw t with _ => _ end = _ =>
                  destruct (starts_with kw t) as [r|] eqn:E; [|discriminate];
                  apply starts_with_head in E as [s' ->];
                  eexists; eexists; split; [reflexivity | reflexivity]
              end | ]).
    discriminate. }
  intros H. unfold Pattern.match_here in H.
  apply orelse_Some in H as [H|H].
  - destruct (starts_with (lit "/**") s) as [r|] eqn:E; [|discriminate].
    apply starts_with_head in E as [s' ->]. eexists; eexists. split; reflexivity.
  - unfold Pattern.after_comment in H.
    eapply (Hw (lit "xport") 101%N); [reflexivity | | exact H].
    intros m Hm. eapply (Hw (lit "sync") 97%N); [reflexivity | | exact Hm].
    intros m' Hm'. eapply Hkw. exact Hm'.
Qed.

(** A text in which the pattern matches holds a code unit that is not white
    space. *)
Lemma matchAll_from_not_blank (s : jsstring) :
  forall pos skip, Pattern.matchAll_from s pos skip <> [] -> strip_ws s <> [].
Proof.
  induction s as [|c s IH]; intros pos skip; simpl; [congruence|].
  assert (Hrec : forall k, Pattern.matchAll_from s (S pos) k <> [] ->
                           strip_ws (c :: s) <> []).
  { intros k Hk. specialize (IH _ _ Hk). simpl.
    destruct (negb (isWhiteSpace c)); [discriminate | exact IH]. }
  destruct skip as [|k]; [|apply Hrec].
  destruct (Pattern.match_here (c :: s)) as [len|] eqn:E; [|apply Hrec].
  intros _. apply match_here_head in E as (c' & s' & [= <- <-] & Hc).
  simpl. rewrite Hc. discriminate.
Qed.

End PatternFacts.

Section TrimFacts.

Lemma dropWhile_all {A} (p : A -> bool) (l : list A) :
  dropWhile p l = [] -> forallb p l = true.
Proof.
  induction l as [|x l IH]; simpl; [reflexivity|].
  destruct (p x); [exact IH | discriminate].
Qed.

Lemma dropWhile_head {A} (p : A -> bool) (l : list A) (x : A) (r : list A) :
  dropWhile p l = x :: r -> p x = false.
Proof.
  induction l as [|y l IH]; simpl; [discriminate|].
  destruct (p y) eqn:E; [exact IH|]. intros [= <- <-]. exact E.
Qed.

Lemma dropWhile_fixed {A} (p : A -> bool) (l : list A) :
  dropWhile p (dropWhile p l) = dropWhile p l.
Proof.
  destruct (dropWhile p l) as [|x r] eqn:E; [reflexivity|].
  apply dropWhile_head in E. simpl. rewrite E. reflexivity.
Qed.

(** [trimEnd] leaves alone a string that does not end in white space. *)
Lemma trimEnd_fixed (s : jsstring) :
  (forall pre c, s = pre ++ [c] -> isWhiteSpace c = false) -> trimEnd s = s.
Proof.
  intros H. unfold trimEnd.
  destruct (rev s) as [|c r] eqn:E.
  - simpl. apply (f_equal (@rev N)) in E. rewrite rev_involutive in E. auto.
  - simpl. rewrite (H (rev r) c).
    + rewrite <- E. apply rev_involutive.
    + apply (f_equal (@rev N)) in E. rewrite rev_involutive in E. exact E.
Qed.

Lemma trimEnd_last (s pre : jsstring) (c : N) :
  trimEnd s = pre ++ [c] -> isWhiteSpace c = false.
Proof.
  unfold trimEnd. intros H.
  apply (f_equal (@rev N)) in H. rewrite rev_involutive, rev_app_distr in H.
  simpl in H. eapply dropWhile_head. exact H.
Qed.

(** [trim] is idempotent: what it returns has no white space at either
    end. *)
Lemma trim_trim (s : jsstring) : trim (trim s) = trim s.
Proof.
  unfold trim at 1.
  assert (He : trimEnd (trim s) = trim s).
  { apply trimEnd_fixed. intros pre c Hpc. unfold trim, trimStart in Hpc.
    destruct (dropWhile_suffix isWhiteSpace (trimEnd s)) as (ws & Hws & _).
    rewrite Hpc in Hws. rewrite app_assoc in Hws.
    eapply trimEnd_last. exact Hws. }
  rewrite He. unfold trim, trimStart. apply dropWhile_fixed.
Qed.

End TrimFacts.

Section ChunkTextEverywhere.

Variable text : jsstring.
Variable maxChunkSize : Z.

Lemma push_section_content (chunks : list jsstring) (section : jsstring) :
  strip_ws (concat (push_section maxChunkSize chunks section))
  = strip_ws (concat chunks) ++ strip_ws section.
Proof.
  unfold push_section.
  destruct (0 <? length section)%nat eqn:E.
  - destruct (maxChunkSize <? Z.of_nat (length section))%Z.
    + rewrite concat_app, strip_ws_app, chunkByLine_content. reflexivity.
    + rewrite concat_app, strip_ws_app. simpl. rewrite app_nil_r. reflexivity.
  - apply Nat.ltb_ge in E. destruct section; [|simpl in E; lia].
    simpl. symmetry. apply app_nil_r.
Qed.

(** Through the loop over the boundaries, the chunks made so far and the
    text from [lastIndex] on hold what the text holds. *)
Lemma boundary_loop_content (matches : list nat) :
  forall chunks lastIndex,
    StronglySorted lt matches ->
    Forall (fun o => lastIndex <= o)%nat matches ->
    let st := fold_left (boundary_step text maxChunkSize) matches (chunks, lastIndex) in
    strip_ws (concat (fst st)) ++ strip_ws (skipn (snd st) text)
    = strip_ws (concat chunks) ++ strip_ws (skipn lastIndex text).
Proof.
  induction matches as [|startIndex matches IH]; intros chunks lastIndex Hs Hb;
    [reflexivity|].
  cbn [fold_left]. unfold boundary_step at 2.
  inversion Hs as [|? ? Hs' Hlt]; subst.
  inversion Hb as [|? ? Hle Hb']; subst.
  cbv zeta. rewrite IH; [|exact Hs'|].
  - destruct (lastIndex <? startIndex)%nat eqn:E.
    + apply Nat.ltb_lt in E.
      rewrite push_section_content, strip_ws_trim.
      unfold substring.
      replace (Nat.max lastIndex startIndex - Nat.min lastIndex startIndex)%nat
        with (startIndex - lastIndex)%nat by lia.
      replace (Nat.min lastIndex startIndex) with lastIndex by lia.
      rewrite <- app_assoc, <- strip_ws_app. f_equal. f_equal.
      rewrite <- (firstn_skipn (startIndex - lastIndex) (skipn lastIndex text)) at 2.
      f_equal. rewrite skipn_skipn. f_equal. lia.
    + apply Nat.ltb_ge in E. assert (startIndex = lastIndex) by lia. subst.
      reflexivity.
  - revert Hlt. apply Forall_impl. intros o Ho. lia.
Qed.

Lemma chunkText_at_content (matches : list nat) :
  StronglySorted lt matches ->
  strip_ws (concat (chunkText_at matches text maxChunkSize)) = strip_ws text.
Proof.
  intros Hs. unfold chunkText_at.
  destruct (Z.of_nat (length text) <=? maxChunkSize)%Z.
  - simpl. rewrite app_nil_r. reflexivity.
  - destruct (1 <? length matches)%nat; [|apply chunkByLine_content].
    pose proof (boundary_loop_content matches [] 0%nat Hs) as H.
    cbv zeta in H. revert H. destruct_loop chunks lastIndex. simpl. intros H.
    assert (H' : strip_ws (concat chunks) ++ strip_ws (skipn lastIndex text)
                 = strip_ws text).
    { apply H. apply Forall_forall. intros o _. lia. }
    destruct (lastIndex <? length text)%nat eqn:E.
    + rewrite push_section_content. unfold substring_from.
      rewrite strip_ws_trim. exact H'.
    + apply Nat.ltb_ge in E. rewrite skipn_all2 in H' by exact E.
      simpl in H'. rewrite app_nil_r in H'. exact H'.
Qed.

Lemma chunkByLine_step_buffer (st : list jsstring * jsstring) (line : jsstring) :
  snd (chunkByLine_step maxChunkSize st line) <> [].
Proof.
  destruct st as [chunks cc]. unfold chunkByLine_step.
  destruct ((maxChunkSize <? Z.of_nat (length (cc ++ line)))%Z
            && (0 <? length cc)%nat)%bool; simpl.
  - destruct line; discriminate.
  - destruct cc; [destruct line|]; discriminate.
Qed.

(** [chunkByLine] always returns at least one chunk. *)
Lemma chunkByLine_not_nil (s : jsstring) : chunkByLine s maxChunkSize <> [].
Proof.
  unfold chunkByLine.
  assert (H : snd (fold_left (chunkByLine_step maxChunkSize) (split_lines s)
                             (@pair (list jsstring) jsstring [] [])) <> []).
  { pose proof (split_lines_nonempty s) as Hne.
    destruct (split_lines s) as [|l ls]; [congruence|]. clear Hne.
    generalize (@pair (list jsstring) jsstring [] []) as st0.
    revert l. induction ls as [|l' ls IH]; intros l st0.
    - apply chunkByLine_step_buffer.
    - cbn [fold_left]. cbn [fold_left] in IH. apply IH. }
  revert H. destruct_loop chunks cc. simpl. intros H.
  destruct cc as [|c cc]; [congruence|]. simpl.
  destruct chunks; discriminate.
Qed.

Lemma chunkByLine_step_trimmed (chunks : list jsstring) (cc line : jsstring) :
  Forall (fun c => trim c = c) chunks ->
  Forall (fun c => trim c = c) (fst (chunkByLine_step maxChunkSize (chunks, cc) line)).
Proof.
  intros H. unfold chunkByLine_step.
  destruct ((maxChunkSize <? Z.of_nat (length (cc ++ line)))%Z
            && (0 <? length cc)%nat)%bool; simpl; [|exact H].
  apply Forall_app. split; [exact H|]. constructor; [apply trim_trim | constructor].
Qed.

Lemma chunkByLine_trimmed (s : jsstring) :
  Forall (fun c => trim c = c) (chunkByLine s maxChunkSize).
Proof.
  unfold chunkByLine.
  assert (H : forall lines chunks cc,
             Forall (fun c => trim c = c) chunks ->
             Forall (fun c => trim c = c)
                    (fst (fold_left (chunkByLine_step maxChunkSize) lines (chunks, cc)))).
  { induction lines as [|l lines IH]; intros chunks cc Hc; [exact Hc|].
    cbn [fold_left].
    pose proof (chunkByLine_step_trimmed chunks cc l Hc) as Hs.
    destruct (chunkByLine_step maxChunkSize (chunks, cc) l) as [chunks' cc'].
    apply IH. exact Hs. }
  specialize (H (split_lines s) [] [] (Forall_nil _)).
  revert H. destruct_loop chunks cc. simpl. intros H.
  destruct (0 <? length cc)%nat; [|exact H].
  apply Forall_app. split; [exact H|]. constructor; [apply trim_trim | constructor].
Qed.

Lemma push_section_trimmed (chunks : list jsstring) (s : jsstring) :
  Forall (fun c => trim c = c) chunks ->
  Forall (fun c => trim c = c) (push_section maxChunkSize chunks (trim s)).
Proof.
  intros H. unfold push_section.
  destruct (0 <? length (trim s))%nat; [|exact H].
  destruct (maxChunkSize <? Z.of_nat (length (trim s)))%Z;
    (apply Forall_app; split; [exact H|]).
  - apply chunkByLine_trimmed.
  - constructor; [apply trim_trim | constructor].
Qed.

Lemma boundary_loop_trimmed (matches : list nat) :
  forall chunks lastIndex,
    Forall (fun c => trim c = c) chunks ->
    Forall (fun c => trim c = c)
           (fst (fold_left (boundary_step text maxChunkSize) matches (chunks, lastIndex))).
Proof.
  induction matches as [|startIndex matches IH]; intros chunks lastIndex H; [exact H|].
  cbn [fold_left]. unfold boundary_step at 2. apply IH.
  destruct (lastIndex <? startIndex)%nat; [|exact H].
  apply push_section_trimmed. exact H.
Qed.

Lemma chunkText_at_trimmed (matches : list nat) :
  (maxChunkSize < Z.of_nat (length text))%Z ->
  Forall (fun c => trim c = c) (chunkText_at matches text maxChunkSize).
Proof.
  intros Hlong. unfold chunkText_at.
  destruct (Z.of_nat (length text) <=? maxChunkSize)%Z eqn:E;
    [apply Z.leb_le in E; lia|].
  destruct (1 <? length matches)%nat; [|apply chunkByLine_trimmed].
  pose proof (boundary_loop_trimmed matches [] 0%nat (Forall_nil _)) as H.
  revert H. destruct_loop chunks lastIndex. simpl. intros H.
  destruct (lastIndex <? length text)%nat; [|exact H].
  apply push_section_trimmed. exact H.
Qed.

End ChunkTextEverywhere.

Lemma matchAll_sorted (text : jsstring) : StronglySorted lt (Pattern.matchAll text).
Proof. apply matchAll_from_offsets. Qed.

(** X1. Whatever the text and the bound, and whichever way [chunkText] takes
    (one chunk, boundaries, lines), the chunks put end to end hold the code
    units of the text that are not white space, each once and in order. *)
Theorem chunkText_preserves_content (text : jsstring) (maxChunkSize : Z) :
  strip_ws (concat (chunkText text maxChunkSize)) = strip_ws text.
Proof.
  unfold chunkText. apply chunkText_at_content. apply matchAll_sorted.
Qed.

Lemma chunkText_some_chunk (text : jsstring) (maxChunkSize : Z) :
  chunkText text maxChunkSize <> [].
Proof.
  intros Hnil.
  pose proof (chunkText_at_content text maxChunkSize (Pattern.matchAll text)
                                   (matchAll_sorted text)) as Hc.
  fold (chunkText text maxChunkSize) in Hc. rewrite Hnil in Hc. simpl in Hc.
  revert Hnil. unfold chunkText, chunkText_at.
  destruct (Z.of_nat (length text) <=? maxChunkSize)%Z; [discriminate|].
  destruct (1 <? length (Pattern.matchAll text))%nat eqn:E.
  - intros _. apply Nat.ltb_lt in E.
    apply (matchAll_from_not_blank text 0 0); [|symmetry; exact Hc].
    unfold Pattern.matchAll in E. intros Hm. rewrite Hm in E. simpl in E. lia.
  - apply chunkByLine_not_nil.
Qed.

(** X2. [chunkText] never returns an empty array, so the count [N] of
    [(part i/N)] is at least one. *)
Theorem chunkText_not_nil (text : jsstring) (maxChunkSize : Z) :
  chunkText text maxChunkSize <> [].
Proof.
  intros Hnil. pose proof (chunkText_some_chunk text maxChunkSize) as H.
  contradiction.
Qed.

(** X3. When the text is longer than the bound, no chunk starts or ends with
    white space: each is a fixed point of [trim]. *)
Theorem chunkText_chunks_trimmed (text : jsstring) (maxChunkSize : Z) :
  (maxChunkSize < Z.of_nat (length text))%Z ->
  Forall (fun c => trim c = c) (chunkText text maxChunkSize).
Proof.
  intros H. unfold chunkText. apply chunkText_at_trimmed. exact H.
Qed.

Lemma chunkText_chunks_trimmed_witness :
  Forall (fun c => trim c = c)
         (chunkText (lit "  function f() { a }  " ++ [LF] ++ lit "  let g = { b }  ") 12).
Proof.
  apply chunkText_chunks_trimmed. vm_compute. reflexivity.
Defined.

Example chunkText_untrimmed_when_short :
  chunkText (lit "  a  ") 12 = [lit "  a  "].
Proof. reflexivity. Qed.

(* ================================================================== *)
(** * The incremental update, file by file *)
(* ================================================================== *)

Lemma grows_by_refl (P : DocumentChunk -> Prop) (st : State) : grows_by P st st.
Proof.
  split; [reflexivity|]. exists []. split; [symmetry; apply app_nil_r | constructor].
Qed.

Lemma grows_by_trans (P : DocumentChunk -> Prop) (a b c : State) :
  grows_by P a b -> grows_by P b c -> grows_by P a c.
Proof.
  intros (Hd1 & x1 & Hk1 & Hp1) (Hd2 & x2 & Hk2 & Hp2). split; [congruence|].
  exists (x1 ++ x2). split; [rewrite Hk2, Hk1, app_assoc; reflexivity|].
  apply Forall_app. split; assumption.
Qed.

Lemma grows_by_weaken (P Q : DocumentChunk -> Prop) (a b : State) :
  (forall d, P d -> Q d) -> grows_by P a b -> grows_by Q a b.
Proof.
  intros H (Hd & x & Hk & Hp). split; [exact Hd|]. exists x. split; [exact Hk|].
  revert Hp. apply Forall_impl. exact H.
Qed.

Section UpdateFacts.

Variable embed : jsstring -> option (list float).
Variable JSON_stringify : list DocumentChunk -> jsstring.
Variable path_extname : jsstring -> jsstring.
Variable toLowerCase : jsstring -> jsstring.
Variable path_join : jsstring -> jsstring -> jsstring.

Local Abbreviation addToKnowledgeBase := (addToKnowledgeBase embed).
Local Abbreviation saveKnowledgeBase := (saveKnowledgeBase JSON_stringify).
Local Abbreviation add_parts := (add_parts embed).
Local Abbreviation ingest_changed_file :=
  (ingest_changed_file embed path_extname toLowerCase).
Local Abbreviation update_step := (update_step embed path_extname toLowerCase path_join).
Local Abbreviation update_loop := (update_loop embed path_extname toLowerCase path_join).
Local Abbreviation updateKnowledgeBase :=
  (updateKnowledgeBase embed JSON_stringify path_extname toLowerCase path_join).
Local Abbreviation made_from := (made_from embed path_extname toLowerCase path_join).
Local Abbreviation read_by_update := (read_by_update path_join).

(** The two ways [addToKnowledgeBase] ends. *)
Lemma addToKnowledgeBase_cases (content : jsstring) (metadata : Metadata) (st : State) :
  (embed content = None
   /\ addToKnowledgeBase content metadata st = (Throw EmbeddingFailed, st))
  \/ exists e,
      embed content = Some e
      /\ addToKnowledgeBase content metadata st
         = (Return tt,
            {| knowledgeBase :=
                 knowledgeBase st
                 ++ [{| content := content; embedding := e; metadata := metadata |}];
               disk := disk st; console := console st |}).
Proof.
  unfold addToKnowledgeBase, bind, call.
  destruct (embed content) as [e|]; [right | left].
  - exists e. split; reflexivity.
  - split; reflexivity.
Qed.

Lemma addToKnowledgeBase_grows_by (P : DocumentChunk -> Prop)
      (content : jsstring) (metadata : Metadata) (st : State) :
  (forall e, embed content = Some e ->
             P {| content := content; embedding := e; metadata := metadata |}) ->
  grows_by P st (snd (addToKnowledgeBase content metadata st)).
Proof.
  intros HP.
  destruct (addToKnowledgeBase_cases content metadata st) as [[_ ->]|(e & He & ->)].
  - apply grows_by_refl.
  - split; [reflexivity|]. eexists. split; [reflexivity|].
    constructor; [apply HP; exact He | constructor].
Qed.

Lemma add_parts_grows_by (P : DocumentChunk -> Prop)
      (filePath fileType : jsstring) (total : nat) (chunks : list jsstring) :
  forall i st,
    (forall j c e,
        nth_error chunks j = Some c -> embed c = Some e ->
        P {| content := c; embedding := e;
             metadata := {| source := part_source filePath (i + j + 1) total;
                            type := fileType |} |}) ->
    grows_by P st (snd (add_parts filePath fileType total i chunks st)).
Proof.
  induction chunks as [|c rest IH]; intros i st HP; cbn [add_parts].
  - apply grows_by_refl.
  - unfold bind.
    assert (Hadd : grows_by P st
                     (snd (addToKnowledgeBase c
                             {| source := part_source filePath (i + 1) total;
                                type := fileType |} st))).
    { apply addToKnowledgeBase_grows_by. intros e He.
      specialize (HP 0%nat c e eq_refl He). rewrite Nat.add_0_r in HP. exact HP. }
    destruct (addToKnowledgeBase c _ st) as [[[]|e] st1]; simpl in Hadd; [|exact Hadd].
    eapply grows_by_trans; [exact Hadd|]. apply IH.
    intros j c' e' Hj He'. specialize (HP (S j) c' e' Hj He').
    replace (S i + j + 1)%nat with (i + S j + 1)%nat by lia. exact HP.
Qed.

Lemma ingest_changed_file_made (repoPath filePath : jsstring) (st : State) :
  grows_by (made_from (disk st) repoPath filePath) st
           (snd (ingest_changed_file filePath (path_join repoPath filePath) st)).
Proof.
  unfold ingest_changed_file, bind at 1, readFileSync.
  destruct (node (disk st) (path_join repoPath filePath)) as [[fileContent|]|] eqn:Hnode;
    try apply grows_by_refl.
  destruct (array_includes ingested_extensions (toLowerCase (path_extname filePath)))
    eqn:Hext; [|apply grows_by_refl].
  unfold bind.
  assert (H : grows_by (made_from (disk st) repoPath filePath) st
                (snd ((if (MAX_CHUNK_SIZE <? Z.of_nat (length fileContent))%Z
                       then add_parts filePath
                              (determineFileType (toLowerCase (path_extname filePath)))
                              (length (chunkText fileContent MAX_CHUNK_SIZE)) 0
                              (chunkText fileContent MAX_CHUNK_SIZE)
                       else addToKnowledgeBase fileContent
                              {| source := filePath;
                                 type := determineFileType
                                           (toLowerCase (path_extname filePath)) |})
                        st))).
  { destruct (MAX_CHUNK_SIZE <? Z.of_nat (length fileContent))%Z eqn:Hsize.
    - apply Z.ltb_lt in Hsize. apply add_parts_grows_by. intros j c e Hj He.
      exists fileContent. repeat split; try assumption.
      right. exists j. repeat split; try assumption.
      apply nth_error_Some. congruence.
    - apply Z.ltb_ge in Hsize. apply addToKnowledgeBase_grows_by. intros e He.
      exists fileContent. repeat split; try assumption.
      left. repeat split. exact Hsize. }
  match goal with
  | |- context [match ?m st with _ => _ end] => destruct (m st) as [[[]|e] st1]
  end; exact H.
Qed.

Lemma update_step_made (repoPath : jsstring) (updated : bool) (filePath : jsstring)
      (st : State) :
  grows_by (fun d => excluded_path filePath = false
                     /\ made_from (disk st) repoPath filePath d)
           st (snd (update_step repoPath updated filePath st)).
Proof.
  unfold update_step.
  destruct (excluded_path filePath) eqn:Hex; [apply grows_by_refl|].
  unfold bind at 1, existsSync.
  destruct (exists_on (disk st) (path_join repoPath filePath)); [|apply grows_by_refl].
  unfold try_catch, bind at 1.
  pose proof (ingest_changed_file_made repoPath filePath st) as H.
  apply grows_by_weaken
    with (Q := fun d => false = false /\ made_from (disk st) repoPath filePath d) in H;
    [|auto].
  destruct (ingest_changed_file filePath (path_join repoPath filePath) st)
    as [[reached|e] st1]; simpl in H; [exact H|].
  unfold bind, console_write. simpl.
  destruct H as (Hd & x & Hk & Hp). split; [exact Hd|]. exists x. auto.
Qed.

Lemma update_loop_made (repoPath : jsstring) (changedFiles : list jsstring) :
  forall updated st,
    grows_by (fun d => exists filePath,
                  In filePath changedFiles
                  /\ excluded_path filePath = false
                  /\ made_from (disk st) repoPath filePath d)
             st (snd (update_loop repoPath changedFiles updated st)).
Proof.
  induction changedFiles as [|filePath rest IH]; intros updated st;
    cbn [update_loop]; [apply grows_by_refl|].
  unfold bind.
  pose proof (update_step_made repoPath updated filePath st) as H.
  destruct (update_step repoPath updated filePath st) as [[u|e] st1]; simpl in H.
  - eapply grows_by_trans.
    + eapply grows_by_weaken; [|exact H]. intros d [Hex Hm]. exists filePath.
      split; [left; reflexivity | auto].
    + specialize (IH u st1). destruct H as [Hd _]. rewrite Hd in IH.
      eapply grows_by_weaken; [|exact IH]. intros d (fp & Hin & Hex & Hm).
      exists fp. split; [right; exact Hin | auto].
  - eapply grows_by_weaken; [|exact H]. intros d [Hex Hm]. exists filePath.
    split; [left; reflexivity | auto].
Qed.

(** An iteration of the loop never throws. *)
Lemma update_step_returns (repoPath : jsstring) (updated : bool) (filePath : jsstring)
      (st : State) :
  exists u, fst (update_step repoPath updated filePath st) = Return u.
Proof.
  unfold update_step.
  destruct (excluded_path filePath); [eexists; reflexivity|].
  unfold bind at 1, existsSync.
  destruct (exists_on (disk st) (path_join repoPath filePath)); [|eexists; reflexivity].
  unfold try_catch.
  match goal with
  | |- context [match ?m st with _ => _ end] => destruct (m st) as [[u|e] st1]
  end; eexists; reflexivity.
Qed.

Lemma update_loop_returns (repoPath : jsstring) (changedFiles : list jsstring) :
  forall updated st,
    exists u, fst (update_loop repoPath changedFiles updated st) = Return u.
Proof.
  induction changedFiles as [|filePath rest IH]; intros updated st;
    cbn [update_loop]; [eexists; reflexivity|].
  unfold bind.
  destruct (update_step_returns repoPath updated filePath st) as [u Hu].
  destruct (update_step repoPath updated filePath st) as [[u'|e] st1];
    simpl in Hu; [apply IH | discriminate].
Qed.

Lemma update_loop_disk (repoPath : jsstring) (changedFiles : list jsstring)
      (updated : bool) (st : State) :
  disk (snd (update_loop repoPath changedFiles updated st)) = disk st.
Proof. apply (update_loop_made repoPath changedFiles updated st). Qed.

Lemma update_step_skipped (repoPath : jsstring) (updated : bool) (filePath : jsstring)
      (st : State) :
  read_by_update (disk st) repoPath filePath = false ->
  update_step repoPath updated filePath st = (Return updated, st).
Proof.
  unfold read_by_update, update_step. intros H.
  destruct (excluded_path filePath); [reflexivity|]. simpl in H.
  unfold bind, existsSync. rewrite H. reflexivity.
Qed.

Lemma update_loop_skips (repoPath : jsstring) (fs : FileSystem)
      (changedFiles : list jsstring) :
  forall updated st,
    disk st = fs ->
    update_loop repoPath changedFiles updated st
    = update_loop repoPath (filter (read_by_update fs repoPath) changedFiles) updated st.
Proof.
  induction changedFiles as [|filePath rest IH]; intros updated st Hfs; [reflexivity|].
  cbn [filter]. destruct (read_by_update fs repoPath filePath) eqn:E.
  - cbn [update_loop]. unfold bind.
    pose proof (update_step_made repoPath updated filePath st) as [Hd _].
    destruct (update_step repoPath updated filePath st) as [[u|e] st1]; [|reflexivity].
    apply IH. simpl in Hd. congruence.
  - cbn [update_loop]. unfold bind at 1.
    rewrite update_step_skipped by (rewrite Hfs; exact E). apply IH. exact Hfs.
Qed.

End UpdateFacts.

Section UpdateOutcome.

Variable embed : jsstring -> option (list float).
Variable JSON_stringify : list DocumentChunk -> jsstring.
Variable path_extname : jsstring -> jsstring.
Variable toLowerCase : jsstring -> jsstring.
Variable path_join : jsstring -> jsstring -> jsstring.

Local Abbreviation saveKnowledgeBase := (saveKnowledgeBase JSON_stringify).
Local Abbreviation update_loop := (update_loop embed path_extname toLowerCase path_join).
Local Abbreviation updateKnowledgeBase :=
  (updateKnowledgeBase embed JSON_stringify path_extname toLowerCase path_join).
Local Abbreviation made_from := (made_from embed path_extname toLowerCase path_join).
Local Abbreviation read_by_update := (read_by_update path_join).

(** The four ways [saveKnowledgeBase] ends. *)
Lemma saveKnowledgeBase_cases (filePath : jsstring) (st : State) :
  saveKnowledgeBase filePath st
  = (Return tt,
     {| knowledgeBase := knowledgeBase st; disk := disk st;
        console := console st ++ [(LOG, NothingToSave)] |})
  \/ (node (disk st) filePath = Some Directory
      /\ saveKnowledgeBase filePath st = (Throw (EISDIR filePath), st))
  \/ (writable (disk st) filePath = false
      /\ saveKnowledgeBase filePath st = (Throw (EACCES filePath), st))
  \/ saveKnowledgeBase filePath st
     = (Return tt,
        {| knowledgeBase := knowledgeBase st;
           disk := write_on (disk st) filePath (JSON_stringify (knowledgeBase st));
           console := console st |}).
Proof.
  unfold saveKnowledgeBase, bind, get_knowledgeBase.
  destruct (length (knowledgeBase st) =? 0)%nat; [left; reflexivity|].
  right. unfold writeFileSync.
  destruct (node (disk st) filePath) as [[data|]|] eqn:Hn;
    [|left; split; reflexivity|];
    (right; destruct (writable (disk st) filePath) eqn:Hw;
     [right; reflexivity | left; split; reflexivity]).
Qed.

(** X4. Every chunk an update appends to the store was made from one of the
    changed files: a path of the list that is outside the excluded
    locations and names a file on disk with a supported extension; the
    chunk's content is that file or one of its pieces, with the embedding
    of that content, the type of the extension and the source naming the
    file (and the part). *)
Theorem updateKnowledgeBase_appends_from_changed_files
        (repoPath knowledgeBasePath : jsstring) (changedFiles : list jsstring)
        (st : State) :
  exists added,
    knowledgeBase (snd (updateKnowledgeBase repoPath knowledgeBasePath changedFiles st))
    = knowledgeBase st ++ added
    /\ Forall (fun doc => exists filePath,
                   In filePath changedFiles
                   /\ excluded_path filePath = false
                   /\ made_from (disk st) repoPath filePath doc)
              added.
Proof.
  unfold updateKnowledgeBase, bind at 1, existsSync.
  destruct (exists_on (disk st) repoPath); cbn [negb].
  - unfold bind.
    pose proof (update_loop_made embed path_extname toLowerCase path_join
                  repoPath changedFiles false st) as (_ & added & Hk & Hp).
    destruct (update_loop repoPath changedFiles false st) as [[u|e] st1]; simpl in Hk.
    + exists added. split; [|exact Hp]. destruct u; [|exact Hk].
      rewrite saveKnowledgeBase_keeps_store. exact Hk.
    + exists added. split; assumption.
  - exists []. split; [simpl; symmetry; apply app_nil_r | constructor].
Qed.

(** X5. An update throws only when writing the snapshot fails: every error
    of reading, chunking or embedding a changed file is caught inside the
    loop, and an error that leaves the update is the one [writeFileSync]
    raises for the snapshot path on the disk the update started from. *)
Theorem updateKnowledgeBase_throws_only_on_write
        (repoPath knowledgeBasePath : jsstring) (changedFiles : list jsstring)
        (st : State) (error : Exception) :
  fst (updateKnowledgeBase repoPath knowledgeBasePath changedFiles st) = Throw error ->
  forall data, fst (writeFileSync knowledgeBasePath data st) = Throw error.
Proof.
  unfold updateKnowledgeBase, bind at 1, existsSync.
  destruct (exists_on (disk st) repoPath); cbn [negb]; [|discriminate].
  unfold bind.
  destruct (update_loop_returns embed path_extname toLowerCase path_join
              repoPath changedFiles false st) as [u Hu].
  pose proof (update_loop_disk embed path_extname toLowerCase path_join
                repoPath changedFiles false st) as Hd.
  destruct (update_loop repoPath changedFiles false st) as [[u'|e] st1];
    simpl in Hu, Hd; [|discriminate].
  destruct u'; [|discriminate]. unfold writeFileSync. rewrite <- Hd.
  destruct (saveKnowledgeBase_cases knowledgeBasePath st1)
    as [E|[[Hn E]|[[Hw E]|E]]]; rewrite E; simpl; intros H data;
    try discriminate; injection H as <-.
  - rewrite Hn. reflexivity.
  - rewrite Hw. destruct (node (disk st1) knowledgeBasePath) as [[d|]|] eqn:Hn;
      try reflexivity.
    exfalso. revert E. unfold saveKnowledgeBase, bind, get_knowledgeBase.
    destruct (length (knowledgeBase st1) =? 0)%nat; [discriminate|].
    unfold writeFileSync. rewrite Hn. discriminate.
Qed.

(** X6. The changed paths an update does not read (those under an excluded
    location and those that name nothing on disk) make no difference to
    its outcome, to the store and to the disk: they are those of the update
    of the paths of the list it reads. *)
Theorem updateKnowledgeBase_reads_only_present_paths
        (repoPath knowledgeBasePath : jsstring) (changedFiles : list jsstring)
        (st : State) :
  let result := updateKnowledgeBase repoPath knowledgeBasePath changedFiles st in
  let result' :=
    updateKnowledgeBase repoPath knowledgeBasePath
      (filter (read_by_update (disk st) repoPath) changedFiles) st in
  fst result = fst result'
  /\ knowledgeBase (snd result) = knowledgeBase (snd result')
  /\ disk (snd result) = disk (snd result').
Proof.
  assert (H : updateKnowledgeBase repoPath knowledgeBasePath changedFiles st
              = updateKnowledgeBase repoPath knowledgeBasePath
                  (filter (read_by_update (disk st) repoPath) changedFiles) st).
  { unfold updateKnowledgeBase, bind at 1 3, existsSync.
    destruct (exists_on (disk st) repoPath); cbn [negb]; [|reflexivity].
    unfold bind.
    rewrite <- (update_loop_skips embed path_extname toLowerCase path_join
                  repoPath (disk st) changedFiles false st eq_refl).
    reflexivity. }
  cbv zeta. rewrite <- H. repeat split.
Qed.

(** X7. An update writes nothing but the snapshot: after it the disk is the
    one it started from, or the update returned and the disk differs from
    it in the snapshot path alone, which holds the serialization of the
    store as the update left it. *)
Theorem updateKnowledgeBase_writes_only_snapshot
        (repoPath knowledgeBasePath : jsstring) (changedFiles : list jsstring)
        (st : State) :
  let result := updateKnowledgeBase repoPath knowledgeBasePath changedFiles st in
  disk (snd result) = disk st
  \/ (fst result = Return tt
      /\ disk (snd result)
         = write_on (disk st) knowledgeBasePath
                    (JSON_stringify (knowledgeBase (snd result)))).
Proof.
  intros result.
  assert (Hr : result = updateKnowledgeBase repoPath knowledgeBasePath changedFiles st)
    by reflexivity.
  clearbody result. revert Hr.
  unfold updateKnowledgeBase, bind at 1, existsSync.
  destruct (exists_on (disk st) repoPath); cbn [negb];
    [|intros ->; left; reflexivity].
  unfold bind.
  pose proof (update_loop_disk embed path_extname toLowerCase path_join
                repoPath changedFiles false st) as Hd.
  destruct (update_loop repoPath changedFiles false st) as [[u|e] st1];
    simpl in Hd; [|intros ->; left; exact Hd].
  destruct u; [|intros ->; left; exact Hd]. rewrite <- Hd.
  destruct (saveKnowledgeBase_cases knowledgeBasePath st1)
    as [E|[[Hn E]|[[Hw E]|E]]]; rewrite E; intros ->; simpl;
    [left; reflexivity | left; reflexivity | left; reflexivity
     | right; split; reflexivity].
Qed.

End UpdateOutcome.

Lemma updateKnowledgeBase_throws_only_on_write_witness :
  fst (Scenario.update (lit "repo") snapshot [lit "src/add.ts"]
         (world [readme] (repository ++ [(snapshot, Directory)])))
  = Throw (EISDIR snapshot)
  /\ forall data,
      fst (writeFileSync snapshot data
             (world [readme] (repository ++ [(snapshot, Directory)])))
      = Throw (EISDIR snapshot).
Proof.
  assert (H : fst (Scenario.update (lit "repo") snapshot [lit "src/add.ts"]
                     (world [readme] (repository ++ [(snapshot, Directory)])))
              = Throw (EISDIR snapshot)) by (vm_compute; reflexivity).
  split; [exact H|].
  exact (updateKnowledgeBase_throws_only_on_write
           Runtime.embed Runtime.stringify Runtime.extname Runtime.toLowerCase
           Runtime.join_path (lit "repo") snapshot [lit "src/add.ts"]
           (world [readme] (repository ++ [(snapshot, Directory)]))
           (EISDIR snapshot) H).
Defined.

(* ================================================================== *)
(** * The stored type and the filter of the retriever *)
(* ================================================================== *)

Lemma split_space_not_nil (s : jsstring) : split_space s <> [].
Proof.
  destruct s as [|c s]; simpl; [discriminate|].
  destruct (c =? SPACE)%N; [discriminate|].
  destruct (split_space s); discriminate.
Qed.

(** [s.split(" ")[0]] is the text before the first space. *)
Lemma split_space_first_word (p rest : jsstring) :
  ~ In SPACE p -> nth 0 (split_space (p ++ SPACE :: rest)) [] = p.
Proof.
  induction p as [|c p IH]; intros Hp.
  - simpl. reflexivity.
  - cbn [app split_space].
    destruct (c =? SPACE)%N eqn:E.
    + apply N.eqb_eq in E. exfalso. apply Hp. left. congruence.
    + assert (Hp' : ~ In SPACE p) by (intros H; apply Hp; right; exact H).
      specialize (IH Hp').
      destruct (split_space (p ++ SPACE :: rest)) as [|l ls] eqn:Es.
      * exfalso. exact (split_space_not_nil _ Es).
      * simpl in IH. simpl. congruence.
Qed.

Lemma split_space_one_word (p : jsstring) :
  ~ In SPACE p -> nth 0 (split_space p) [] = p.
Proof.
  induction p as [|c p IH]; intros Hp.
  - reflexivity.
  - cbn [split_space].
    destruct (c =? SPACE)%N eqn:E.
    + apply N.eqb_eq in E. exfalso. apply Hp. left. congruence.
    + assert (Hp' : ~ In SPACE p) by (intros H; apply Hp; right; exact H).
      specialize (IH Hp').
      destruct (split_space p) as [|l ls] eqn:Es.
      * exfalso. exact (split_space_not_nil _ Es).
      * simpl in IH. simpl. congruence.
Qed.

Lemma part_source_first_word (filePath : jsstring) (i total : nat) :
  ~ In SPACE filePath ->
  nth 0 (split_space (part_source filePath i total)) [] = filePath.
Proof.
  intros H. unfold part_source.
  change (lit " (part ") with (SPACE :: lit "(part ").
  rewrite <- app_comm_cons. apply split_space_first_word. exact H.
Qed.

Lemma determineFileType_cases (extension : jsstring) :
  (array_includes code_extensions extension = true
   /\ determineFileType extension = lit "code")
  \/ (array_includes code_extensions extension = false
      /\ extension = lit ".md" /\ determineFileType extension = lit "documentation")
  \/ (array_includes code_extensions extension = false
      /\ extension = lit ".json" /\ determineFileType extension = lit "configuration")
  \/ (array_includes code_extensions extension = false
      /\ extension <> lit ".md" /\ extension <> lit ".json"
      /\ determineFileType extension = lit "other").
Proof.
  unfold determineFileType.
  change [lit ".ts"; lit ".tsx"; lit ".js"; lit ".jsx"] with code_extensions.
  destruct (array_includes code_extensions extension); [left; split; reflexivity|].
  right.
  destruct (jsstring_eqb extension (lit ".md")) eqn:Emd.
  { left. apply jsstring_eqb_eq in Emd. repeat split; assumption. }
  right.
  destruct (jsstring_eqb extension (lit ".json")) eqn:Ejson.
  { left. apply jsstring_eqb_eq in Ejson. repeat split; assumption. }
  right. repeat split.
  - intros H. apply jsstring_eqb_eq in H. congruence.
  - intros H. apply jsstring_eqb_eq in H. congruence.
Qed.

Lemma determineFileType_code_iff (extension : jsstring) :
  determineFileType extension = lit "code"
  <-> array_includes code_extensions extension = true.
Proof.
  destruct (determineFileType_cases extension)
    as [[H1 H2]|[(H1 & _ & H2)|[(H1 & _ & H2)|(H1 & _ & _ & H2)]]];
    rewrite H1, H2; split; intros H; try reflexivity; discriminate H.
Qed.

Section TypeAndFilter.

Variable embed : jsstring -> option (list float).
Variable path_extname : jsstring -> jsstring.
Variable toLowerCase : jsstring -> jsstring.
Variable path_join : jsstring -> jsstring -> jsstring.

Local Abbreviation is_code_entry := (is_code_entry path_extname toLowerCase).
Local Abbreviation made_from := (made_from embed path_extname toLowerCase path_join).

(** X8. The filter of the retriever decides on the text of the source up
    to its first space: a chunk whose source is a path without a space,
    alone or followed by a space and anything else, passes the filter
    exactly when the extension of that path, in lower case, is one of the
    four code extensions. *)
Theorem is_code_entry_decides_on_first_word (doc : DocumentChunk) (p rest : jsstring) :
  ~ In SPACE p ->
  source (metadata doc) = p \/ source (metadata doc) = p ++ SPACE :: rest ->
  is_code_entry doc = array_includes code_extensions (toLowerCase (path_extname p)).
Proof.
  intros Hp Hs. unfold is_code_entry.
  destruct Hs as [-> | ->].
  - rewrite split_space_one_word by exact Hp. reflexivity.
  - rewrite split_space_first_word by exact Hp. reflexivity.
Qed.

(** X9. For a chunk made from a changed file whose path has no space, the
    type the update stored and the filter of the retriever agree: the
    stored type is "code" exactly when the chunk passes the filter. *)
Theorem made_from_type_agrees_with_filter
        (fs : FileSystem) (repoPath filePath : jsstring) (doc : DocumentChunk) :
  ~ In SPACE filePath ->
  made_from fs repoPath filePath doc ->
  (type (metadata doc) = lit "code" <-> is_code_entry doc = true).
Proof.
  intros Hp (fileContent & _ & _ & _ & Htype & Hsrc).
  rewrite Htype, determineFileType_code_iff.
  assert (Hw : nth 0 (split_space (source (metadata doc))) [] = filePath).
  { destruct Hsrc as [(_ & -> & _)|(i & _ & _ & -> & _)].
    - apply split_space_one_word. exact Hp.
    - apply part_source_first_word. exact Hp. }
  unfold is_code_entry. rewrite Hw. reflexivity.
Qed.

(** X10. The extensions the update ingests are the ones
    [determineFileType] knows: a chunk made from a changed file has type
    "code", "documentation" or "configuration", never "other". *)
Theorem made_from_type_known
        (fs : FileSystem) (repoPath filePath : jsstring) (doc : DocumentChunk) :
  made_from fs repoPath filePath doc ->
  In (type (metadata doc)) [lit "code"; lit "documentation"; lit "configuration"].
Proof.
  intros (fileContent & _ & _ & Hext & Htype & _). rewrite Htype.
  destruct (determineFileType_cases (toLowerCase (path_extname filePath)))
    as [[_ H]|[(_ & _ & H)|[(_ & _ & H)|(Hc & Hmd & Hjson & _)]]];
    try (rewrite H; simpl; auto; fail).
  exfalso. revert Hext Hc. unfold array_includes, ingested_extensions, code_extensions.
  cbn [existsb]. intros Hext Hc.
  repeat (apply Bool.orb_false_iff in Hc; destruct Hc as [?H Hc]).
  repeat match goal with
         | H : jsstring_eqb _ _ = false |- _ => rewrite H in Hext
         end.
  cbn [orb] in Hext. rewrite Bool.orb_false_r in Hext.
  apply Bool.orb_true_iff in Hext. destruct Hext as [Hx|Hx];
    apply jsstring_eqb_eq in Hx; contradiction.
Qed.

End TypeAndFilter.

Lemma add_ts_made_from :
  made_from Runtime.embed Runtime.extname Runtime.toLowerCase Runtime.join_path
            (disk_of repository) (lit "repo") (lit "src/add.ts")
            (chunk "export const add = (a, b) => a + b" "src/add.ts" "code").
Proof.
  exists (lit "export const add = (a, b) => a + b").
  split; [vm_compute; reflexivity|].
  split; [vm_compute; reflexivity|].
  split; [vm_compute; reflexivity|].
  split; [vm_compute; reflexivity|].
  left. split; [reflexivity|]. split; [reflexivity|]. vm_compute. discriminate.
Defined.

Lemma add_ts_no_space : ~ In SPACE (lit "src/add.ts").
Proof. vm_compute. intuition discriminate. Defined.

Lemma is_code_entry_decides_on_first_word_witness :
  is_code_entry Runtime.extname Runtime.toLowerCase second_ts
  = array_includes code_extensions
      (Runtime.toLowerCase (Runtime.extname (lit "src/second.ts"))).
Proof.
  apply (is_code_entry_decides_on_first_word
           Runtime.extname Runtime.toLowerCase second_ts
           (lit "src/second.ts") (lit "(part 1/2)")).
  - vm_compute. intuition discriminate.
  - right. reflexivity.
Defined.

Lemma made_from_type_agrees_with_filter_witness :
  type (metadata (chunk "export const add = (a, b) => a + b" "src/add.ts" "code"))
  = lit "code"
  <-> is_code_entry Runtime.extname Runtime.toLowerCase
        (chunk "export const add = (a, b) => a + b" "src/add.ts" "code") = true.
Proof.
  exact (made_from_type_agrees_with_filter
           Runtime.embed Runtime.extname Runtime.toLowerCase Runtime.join_path
           (disk_of repository) (lit "repo") (lit "src/add.ts") _
           add_ts_no_space add_ts_made_from).
Defined.

Lemma made_from_type_known_witness :
  In (type (metadata (chunk "export const add = (a, b) => a + b" "src/add.ts" "code")))
     [lit "code"; lit "documentation"; lit "configuration"].
Proof.
  exact (made_from_type_known
           Runtime.embed Runtime.extname Runtime.toLowerCase Runtime.join_path
           (disk_of repository) (lit "repo") (lit "src/add.ts") _ add_ts_made_from).
Defined.

(** A path with a space: the update stores the type of the whole path's
    extension, the filter looks at the first word. *)
Example type_and_filter_differ_on_space :
  let doc := chunk "export {}" "my notes/add.ts" "code" in
  made_from Runtime.embed Runtime.extname Runtime.toLowerCase Runtime.join_path
            (disk_of [(lit "repo/my notes/add.ts", File (lit "export {}"))])
            (lit "repo") (lit "my notes/add.ts") doc
  /\ type (metadata doc) = lit "code"
  /\ is_code_entry Runtime.extname Runtime.toLowerCase doc = false.
Proof.
  split; [|split; vm_compute; reflexivity].
  exists (lit "export {}").
  split; [vm_compute; reflexivity|].
  split; [vm_compute; reflexivity|].
  split; [vm_compute; reflexivity|].
  split; [vm_compute; reflexivity|].
  left. split; [reflexivity|]. split; [reflexivity|]. vm_compute. discriminate.
Qed.

(* ================================================================== *)
(** * Retrieval: what it leaves alone and what it answers *)
(* ================================================================== *)

Lemma join_head (sep x : jsstring) (c : N) (t : jsstring) (rest : list jsstring) :
  x = c :: t -> exists t', join sep (x :: rest) = c :: t'.
Proof.
  intros ->. simpl. destruct rest; eexists; reflexivity.
Qed.

Lemma format_result_head (r : Scored) : exists t, format_result r = 91%N :: t.
Proof. unfold format_result. eexists. reflexivity. Qed.

Section RetrievalFacts.

Variable embed : jsstring -> option (list float).
Variable cosineSimilarity : list float -> list float -> option float.
Variable path_extname : jsstring -> jsstring.
Variable toLowerCase : jsstring -> jsstring.

Local Abbreviation is_code_entry := (is_code_entry path_extname toLowerCase).
Local Abbreviation score_all := (score_all cosineSimilarity).
Local Abbreviation relevant_results :=
  (relevant_results embed cosineSimilarity path_extname toLowerCase).
Local Abbreviation getRelevantContext :=
  (getRelevantContext embed cosineSimilarity path_extname toLowerCase).

Lemma relevant_results_cases (kb : list DocumentChunk) (query : jsstring)
      (maxResults : Z) (st : State) :
  (embed query = None
   /\ relevant_results kb query maxResults st = (Throw EmbeddingFailed, st))
  \/ (exists queryEmbedding,
         embed query = Some queryEmbedding
         /\ score_all queryEmbedding (filter is_code_entry kb) = None
         /\ relevant_results kb query maxResults st = (Throw SimilarityFailed, st))
  \/ (exists queryEmbedding scored,
         embed query = Some queryEmbedding
         /\ score_all queryEmbedding (filter is_code_entry kb) = Some scored
         /\ relevant_results kb query maxResults st
            = (Return (slice0 (sort by_similarity scored) maxResults), st)).
Proof.
  unfold relevant_results, bind, call.
  destruct (embed query) as [queryEmbedding|]; [right | left; split; reflexivity].
  destruct (score_all queryEmbedding (filter is_code_entry kb)) as [scored|] eqn:E;
    [right; exists queryEmbedding, scored | left; exists queryEmbedding];
    (split; [reflexivity|]); (split; [exact E|]);
    unfold ret, throw; cbv beta iota; rewrite E; reflexivity.
Qed.

Lemma score_all_None (queryEmbedding : list float) (docs : list DocumentChunk) :
  score_all queryEmbedding docs = None ->
  exists doc, In doc docs /\ cosineSimilarity queryEmbedding (embedding doc) = None.
Proof.
  induction docs as [|doc rest IH]; simpl; [discriminate|].
  destruct (cosineSimilarity queryEmbedding (embedding doc)) eqn:E.
  - destruct (score_all queryEmbedding rest); [discriminate|].
    intros _. destruct (IH eq_refl) as (d & Hin & Hd). exists d. auto.
  - intros _. exists doc. auto.
Qed.

Lemma getRelevantContext_cases (query : jsstring) (maxResults : Z) (st : State) :
  (knowledgeBase st = []
   /\ getRelevantContext query maxResults st = (Return no_knowledge_base, st))
  \/ (knowledgeBase st <> []
      /\ match relevant_results (knowledgeBase st) query maxResults st with
         | (Return results, st') =>
             getRelevantContext query maxResults st
             = (Return (join [LF; LF] (map format_result results)), st')
         | (Throw e, st') =>
             getRelevantContext query maxResults st = (Throw e, st')
         end).
Proof.
  rewrite (getRelevantContext_results embed cosineSimilarity path_extname toLowerCase).
  destruct (knowledgeBase st) as [|doc kb] eqn:E; cbn [length Nat.eqb].
  - left. split; reflexivity.
  - right. split; [discriminate|].
    destruct (relevant_results (doc :: kb) query maxResults st) as [[results|e] st'];
      reflexivity.
Qed.

(** X11. Retrieval reads the store and the disk and changes neither,
    whether it answers or throws. *)
Theorem getRelevantContext_keeps_store_and_disk
        (query : jsstring) (maxResults : Z) (st : State) :
  knowledgeBase (snd (getRelevantContext query maxResults st)) = knowledgeBase st
  /\ disk (snd (getRelevantContext query maxResults st)) = disk st.
Proof.
  destruct (getRelevantContext_cases query maxResults st) as [[_ ->]|[_ H]];
    [split; reflexivity|].
  destruct (relevant_results_cases (knowledgeBase st) query maxResults st)
    as [[_ E]|[(qe & _ & _ & E)|(qe & scored & _ & _ & E)]];
    rewrite E in H; rewrite H; split; reflexivity.
Qed.

(** X12. The answer "No knowledge base available" is given for the empty
    store and for no other: on a store with a chunk, an answer is empty or
    begins with the bracket of a source. *)
Theorem getRelevantContext_sentinel_iff_empty
        (query : jsstring) (maxResults : Z) (st : State) :
  fst (getRelevantContext query maxResults st) = Return no_knowledge_base
  <-> knowledgeBase st = [].
Proof.
  destruct (getRelevantContext_cases query maxResults st) as [[Hkb ->]|[Hkb H]].
  - split; intros _; [exact Hkb | reflexivity].
  - split; [|intros Hnil; contradiction].
    destruct (relevant_results_cases (knowledgeBase st) query maxResults st)
      as [[_ E]|[(qe & _ & _ & E)|(qe & scored & _ & _ & E)]];
      rewrite E in H; rewrite H; simpl; try discriminate.
    destruct (slice0 (sort by_similarity scored) maxResults) as [|r rest].
    + simpl. discriminate.
    + cbn [map]. destruct (format_result_head r) as [t Ht].
      destruct (join_head [LF; LF] (format_result r) 91%N t (map format_result rest) Ht)
        as [t' ->].
      discriminate.
Qed.

(** X13. On a store that has chunks but none that passes the filter, the
    answer is the empty string, for every query that can be embedded and
    every [maxResults]. *)
Theorem getRelevantContext_without_code_entries
        (query : jsstring) (maxResults : Z) (st : State) (queryEmbedding : list float) :
  knowledgeBase st <> [] ->
  filter is_code_entry (knowledgeBase st) = [] ->
  embed query = Some queryEmbedding ->
  fst (getRelevantContext query maxResults st) = Return [].
Proof.
  intros Hkb Hnone Hq.
  destruct (getRelevantContext_cases query maxResults st) as [[Hnil _]|[_ H]];
    [contradiction|].
  revert H. unfold relevant_results, bind, call.
  rewrite Hq, Hnone. cbn [score_all]. unfold ret.
  unfold slice0. cbn [sort fold_right length]. rewrite firstn_nil. simpl.
  intros ->. reflexivity.
Qed.

(** X14. When [maxResults] is at least the number of chunks that pass the
    filter, nothing is cut: the documents of the results are those chunks,
    each once, in some order. *)
Theorem relevant_results_all_when_room
        (kb : list DocumentChunk) (query : jsstring) (maxResults : Z)
        (st st' : State) (results : list Scored) :
  (Z.of_nat (length (filter is_code_entry kb)) <= maxResults)%Z ->
  relevant_results kb query maxResults st = (Return results, st') ->
  Permutation (map document results) (filter is_code_entry kb).
Proof.
  intros Hroom Hres.
  destruct (relevant_results_cases kb query maxResults st)
    as [[_ E]|[(qe & _ & _ & E)|(qe & scored & _ & Hs & E)]];
    rewrite E in Hres; try discriminate.
  injection Hres as <- _.
  pose proof (score_all_documents cosineSimilarity qe _ scored Hs) as Hdocs.
  assert (Hlen : length (sort by_similarity scored) = length (filter is_code_entry kb)).
  { rewrite <- Hdocs, length_map. apply Permutation_length, sort_perm. }
  unfold slice0.
  replace (maxResults <? 0)%Z with false by (symmetry; apply Z.ltb_ge; lia).
  rewrite Hlen, Z.min_r by exact Hroom. rewrite Nat2Z.id, <- Hlen, firstn_all.
  rewrite <- Hdocs. apply Permutation_map, sort_perm.
Qed.

(** X15. Retrieval throws in two cases only: the query cannot be embedded,
    or the similarity of the query with a chunk that passes the filter
    cannot be computed. *)
Theorem getRelevantContext_throws
        (query : jsstring) (maxResults : Z) (st : State) (error : Exception) :
  fst (getRelevantContext query maxResults st) = Throw error ->
  (error = EmbeddingFailed /\ embed query = None)
  \/ (error = SimilarityFailed
      /\ exists queryEmbedding doc,
          embed query = Some queryEmbedding
          /\ In doc (knowledgeBase st) /\ is_code_entry doc = true
          /\ cosineSimilarity queryEmbedding (embedding doc) = None).
Proof.
  destruct (getRelevantContext_cases query maxResults st) as [[_ ->]|[_ H]];
    [discriminate|].
  destruct (relevant_results_cases (knowledgeBase st) query maxResults st)
    as [[Hq E]|[(qe & Hq & Hs & E)|(qe & scored & _ & _ & E)]];
    rewrite E in H; rewrite H; simpl; intros Herr; try discriminate;
    injection Herr as <-.
  - left. auto.
  - right. split; [reflexivity|].
    destruct (score_all_None qe _ Hs) as (doc & Hin & Hd).
    apply filter_In in Hin. destruct Hin as [Hin Hcode].
    exists qe, doc. auto.
Qed.

End RetrievalFacts.

Lemma getRelevantContext_without_code_entries_witness :
  fst (getRelevantContext Runtime.embed Runtime.cosineSimilarity
                          Runtime.extname Runtime.toLowerCase
                          (lit "id") 5 (world [readme] []))
  = Return [].
Proof.
  apply (getRelevantContext_without_code_entries
           Runtime.embed Runtime.cosineSimilarity Runtime.extname Runtime.toLowerCase
           (lit "id") 5 (world [readme] []) (embedding_of (lit "id"))).
  - discriminate.
  - vm_compute. reflexivity.
  - vm_compute. reflexivity.
Defined.

Lemma relevant_results_all_when_room_witness :
  exists results,
    relevant store (lit "id") 5 (world store []) = (Return results, world store [])
    /\ Permutation (map document results)
                   (filter (is_code_entry Runtime.extname Runtime.toLowerCase) store).
Proof.
  eexists. split; [vm_compute; reflexivity|].
  apply (relevant_results_all_when_room
           Runtime.embed Runtime.cosineSimilarity Runtime.extname Runtime.toLowerCase
           store (lit "id") 5 (world store []) (world store [])).
  - vm_compute. discriminate.
  - vm_compute. reflexivity.
Defined.

Lemma getRelevantContext_throws_witness :
  fst (getRelevantContext Runtime.embed Runtime.cosineSimilarity
                          Runtime.extname Runtime.toLowerCase
                          [] 5 (world store []))
  = Throw EmbeddingFailed
  /\ ((EmbeddingFailed = EmbeddingFailed /\ Runtime.embed [] = None)
      \/ (EmbeddingFailed = SimilarityFailed
          /\ exists queryEmbedding doc,
              Runtime.embed [] = Some queryEmbedding
              /\ In doc (knowledgeBase (world store []))
              /\ is_code_entry Runtime.extname Runtime.toLowerCase doc = true
              /\ Runtime.cosineSimilarity queryEmbedding (embedding doc) = None)).
Proof.
  assert (H : fst (getRelevantContext Runtime.embed Runtime.cosineSimilarity
                     Runtime.extname Runtime.toLowerCase [] 5 (world store []))
              = Throw EmbeddingFailed) by (vm_compute; reflexivity).
  split; [exact H|].
  exact (getRelevantContext_throws
           Runtime.embed Runtime.cosineSimilarity Runtime.extname Runtime.toLowerCase
           [] 5 (world store []) EmbeddingFailed H).
Defined.

(* ================================================================== *)
(** * The walk over a repository *)
(* ================================================================== *)

Import Repository.

(** Induction on the tree of a listing. *)
Lemma Dirent_induction (P : Dirent -> Prop) :
  (forall name, P (FileEntry name)) ->
  (forall name error, P (DirEntry name (inl error))) ->
  (forall name entries, Forall P entries -> P (DirEntry name (inr entries))) ->
  forall entry, P entry.
Proof.
  intros Hfile Hunreadable Hdir. fix IH 1. intros [name|name [error|entries]].
  - apply Hfile.
  - apply Hunreadable.
  - apply Hdir. induction entries as [|entry rest IHrest]; constructor.
    + apply IH.
    + exact IHrest.
Qed.

Lemma for_each_app {A} (body : A -> Walk unit) (xs ys : list A) (run : Run) :
  for_each body (xs ++ ys) run
  = walk_bind (for_each body xs) (fun _ => for_each body ys) run.
Proof.
  revert run. induction xs as [|x xs IH]; intros run; cbn [app for_each].
  - reflexivity.
  - unfold walk_bind. destruct (body x run) as [[[]|e] run1]; [|reflexivity].
    rewrite IH. reflexivity.
Qed.

Section WalkFacts.

Variable embed : jsstring -> option (list float).
Variable path_extname : jsstring -> jsstring.
Variable toLowerCase : jsstring -> jsstring.
Variable path_join : jsstring -> jsstring -> jsstring.

Local Abbreviation addToKnowledgeBase := (addToKnowledgeBase embed).
Local Abbreviation add_chunks := (add_chunks embed).
Local Abbreviation process_file := (process_file embed).
Local Abbreviation process_entry :=
  (process_entry embed path_extname toLowerCase path_join).
Local Abbreviation processDirectory :=
  (processDirectory embed path_extname toLowerCase path_join).
Local Abbreviation processRepository :=
  (processRepository embed path_extname toLowerCase path_join).
Local Abbreviation plan_entry := (plan_entry path_extname toLowerCase path_join).
Local Abbreviation plan_directory := (plan_directory path_extname toLowerCase path_join).
Local Abbreviation follow := (follow embed).
Local Abbreviation chunk_of := (chunk_of embed).
Local Abbreviation accounted := (accounted embed).

(** The [catch] of a file counts the error and goes on. *)
Lemma process_file_returns (file : Candidate) (run : Run) :
  fst (process_file file run) = Return tt.
Proof.
  unfold process_file, walk_try.
  match goal with
  | |- context [match ?m run with _ => _ end] => destruct (m run) as [[[]|e] run1]
  end; reflexivity.
Qed.

Lemma follow_nil (run : Run) : follow ([], None) run = (Return tt, run).
Proof. reflexivity. Qed.

Lemma follow_single (file : Candidate) (run : Run) :
  follow ([file], None) run = process_file file run.
Proof.
  unfold follow. cbn [fst snd for_each]. unfold walk_bind, walk_ret.
  pose proof (process_file_returns file run) as H.
  destruct (process_file file run) as [[[]|e] run1]; [reflexivity | discriminate].
Qed.

Lemma follow_plan_then (first next : Plan) (run : Run) :
  follow (plan_then first next) run
  = walk_bind (follow first) (fun _ => follow next) run.
Proof.
  destruct first as [read [error|]]; unfold plan_then, follow; cbn [fst snd].
  - unfold walk_bind, walk_throw.
    destruct (for_each process_file read run) as [[[]|e] run1]; reflexivity.
  - unfold walk_bind at 1. rewrite for_each_app. unfold walk_bind, walk_ret.
    destruct (for_each process_file read run) as [[[]|e] run1]; reflexivity.
Qed.

Lemma for_each_follows (body : Dirent -> Walk unit) (plan_of : Dirent -> Plan)
      (entries : list Dirent) :
  Forall (fun entry => forall run, body entry run = follow (plan_of entry) run) entries ->
  forall run, for_each body entries run = follow (plan_each plan_of entries) run.
Proof.
  induction 1 as [|entry rest Hentry _ IH]; intros run; cbn [for_each plan_each].
  - reflexivity.
  - rewrite follow_plan_then. unfold walk_bind. rewrite Hentry.
    destruct (follow (plan_of entry) run) as [[[]|e] run1]; [apply IH | reflexivity].
Qed.

Lemma process_entry_follows_plan (entry : Dirent) :
  forall dirPath relativeDir run,
    process_entry dirPath relativeDir entry run
    = follow (plan_entry dirPath relativeDir entry) run.
Proof.
  induction entry as [name|name error|name entries IH] using Dirent_induction;
    intros dirPath relativeDir run; cbn [process_entry plan_entry].
  - destruct (excluded_path (path_join relativeDir name)); [reflexivity|].
    destruct (array_includes ingested_extensions (toLowerCase (path_extname name)));
      [|reflexivity].
    symmetry. apply follow_single.
  - destruct (array_includes skipped_directories name); reflexivity.
  - destruct (array_includes skipped_directories name); [reflexivity|].
    apply for_each_follows. revert IH. apply Forall_impl. intros entry H. apply H.
Qed.

Lemma processDirectory_as_plan
      (dirPath relativeDir : jsstring) (listing : Exception + list Dirent) (run : Run) :
  processDirectory dirPath relativeDir listing run
  = follow (plan_directory dirPath relativeDir listing) run.
Proof.
  destruct listing as [error|entries]; cbn [processDirectory plan_directory].
  - reflexivity.
  - apply for_each_follows. apply Forall_forall. intros entry _ run'.
    apply process_entry_follows_plan.
Qed.

End WalkFacts.

Section WalkAccounting.

Variable embed : jsstring -> option (list float).
Variable path_extname : jsstring -> jsstring.
Variable toLowerCase : jsstring -> jsstring.
Variable path_join : jsstring -> jsstring -> jsstring.

Local Abbreviation addToKnowledgeBase := (addToKnowledgeBase embed).
Local Abbreviation add_chunks := (add_chunks embed).
Local Abbreviation process_file := (process_file embed).
Local Abbreviation processDirectory :=
  (processDirectory embed path_extname toLowerCase path_join).
Local Abbreviation processRepository :=
  (processRepository embed path_extname toLowerCase path_join).
Local Abbreviation plan_directory := (plan_directory path_extname toLowerCase path_join).
Local Abbreviation follow := (follow embed).
Local Abbreviation chunk_of := (chunk_of embed).
Local Abbreviation accounted := (accounted embed).

Lemma add_chunks_spec (Q : DocumentChunk -> Prop) (relativePath fileType : jsstring)
      (total : nat) (parts : list jsstring) :
  forall i run outcome run',
    add_chunks relativePath fileType total i parts run = (outcome, run') ->
    (forall j c e,
        nth_error parts j = Some c -> embed c = Some e ->
        Q {| content := c; embedding := e;
             metadata := {| source := part_source relativePath (i + j + 1) total;
                            type := fileType |} |}) ->
    exists added,
      knowledgeBase (service run') = knowledgeBase (service run) ++ added
      /\ disk (service run') = disk (service run)
      /\ Forall Q added
      /\ chunks (stats run') = (chunks (stats run) + length added)%nat
      /\ files (stats run') = files (stats run)
      /\ errors (stats run') = errors (stats run)
      /\ (outcome = Return tt -> length added = length parts).
Proof.
  induction parts as [|part rest IH]; intros i run outcome run' Hrun HQ;
    cbn [add_chunks] in Hrun.
  - injection Hrun as <- <-. exists []. cbn. rewrite app_nil_r. repeat split; auto.
  - unfold walk_bind at 1, lift in Hrun.
    destruct (addToKnowledgeBase_cases
                embed part
                {| source := part_source relativePath (i + 1) total; type := fileType |}
                (service run)) as [[_ E]|(e & He & E)]; rewrite E in Hrun.
    + injection Hrun as <- <-. exists []. cbn. rewrite app_nil_r.
      repeat split; auto. discriminate.
    + unfold walk_bind at 1, update_stats in Hrun. cbv beta iota in Hrun.
      cbn [service stats] in Hrun.
      apply IH in Hrun.
      2:{ intros j c e' Hj He'. replace (S i + j + 1)%nat with (i + S j + 1)%nat by lia.
          apply HQ; assumption. }
      destruct Hrun as (added & H1 & H2 & H3 & H4 & H5 & H6 & H7).
      eexists (_ :: added). cbn [service stats knowledgeBase disk] in *.
      rewrite H1, H2, H4, H5, H6, <- app_assoc.
      cbn [app length chunks files errors count_chunk].
      split; [reflexivity|]. split; [reflexivity|]. split.
      { constructor; [|exact H3].
        specialize (HQ 0%nat part e eq_refl He). rewrite Nat.add_0_r in HQ. exact HQ. }
      split; [lia|]. split; [reflexivity|]. split; [reflexivity|].
      intros Hr. rewrite (H7 Hr). reflexivity.
Qed.

Lemma accounted_refl (run : Run) : accounted [] run run.
Proof.
  split; [reflexivity|]. exists []. rewrite app_nil_r. cbn.
  repeat split; try lia. constructor.
Qed.

Lemma accounted_trans (xs ys : list Candidate) (a b c : Run) :
  accounted xs a b -> accounted ys b c -> accounted (xs ++ ys) a c.
Proof.
  intros (Hd1 & added1 & Hk1 & Hp1 & Hc1 & Hs1 & Hf1)
         (Hd2 & added2 & Hk2 & Hp2 & Hc2 & Hs2 & Hf2).
  split; [congruence|]. exists (added1 ++ added2).
  rewrite Hk2, Hk1, <- app_assoc, !length_app.
  repeat split; try lia.
  apply Forall_app. split.
  - revert Hp1. apply Forall_impl. intros doc (file & Hin & Hdoc).
    exists file. split; [apply in_or_app; left; exact Hin | exact Hdoc].
  - revert Hp2. apply Forall_impl. intros doc (file & Hin & Hdoc).
    exists file. split; [apply in_or_app; right; exact Hin|].
    rewrite <- Hd1. exact Hdoc.
Qed.

Lemma process_file_accounted (file : Candidate) (run : Run) :
  accounted [file] run (snd (process_file file run)).
Proof.
  destruct (process_file file run) as [outcome run'] eqn:Hrun. cbn [snd].
  revert Hrun. unfold process_file, walk_try.
  unfold walk_bind at 1, lift, readFileSync.
  destruct (node (disk (service run)) (fullPath file)) as [[fileContent|]|] eqn:Hnode;
    cbv beta iota.
  2, 3: (unfold update_stats; intros Hrun; injection Hrun as <- <-;
         split; [reflexivity|]; exists []; rewrite app_nil_r; cbn;
         repeat split; try lia; constructor).
  unfold walk_bind at 1, update_stats at 1. cbv beta iota. cbn [service stats].
  unfold walk_bind at 1, update_stats at 1. cbv beta iota. cbn [service stats].
  unfold walk_bind at 1.
  destruct (MAX_CHUNK_SIZE <? Z.of_nat (length fileContent))%Z eqn:Hsize.
  - apply Z.ltb_lt in Hsize.
    unfold walk_bind at 1, update_stats at 1. cbv beta iota. cbn [service stats].
    match goal with
    | |- context [add_chunks ?rel ?ft ?total ?i ?parts ?r] =>
        destruct (add_chunks rel ft total i parts r) as [o run1] eqn:Hparts
    end.
    apply add_chunks_spec
      with (Q := fun doc => exists file', In file' [file]
                                          /\ chunk_of (disk (service run)) file' doc)
      in Hparts.
    2:{ intros j c e Hj He. exists file. split; [left; reflexivity|].
        exists fileContent. repeat split; try assumption.
        right. exists j. repeat split; try assumption.
        apply nth_error_Some. congruence. }
    destruct Hparts as (added & H1 & H2 & H3 & H4 & H5 & H6 & H7).
    cbn [service stats knowledgeBase disk chunks files errors count_largeFile
         count_type add_totalSize] in *.
    assert (Hpos : (1 <= length (chunkText fileContent MAX_CHUNK_SIZE))%nat).
    { pose proof (chunkText_some_chunk fileContent MAX_CHUNK_SIZE) as Hne.
      destruct (chunkText fileContent MAX_CHUNK_SIZE); [contradiction | simpl; lia]. }
    destruct o as [[]|e]; unfold update_stats; intros Hrun; injection Hrun as <- <-;
      (split; [exact H2|]); exists added;
      cbn [service stats knowledgeBase disk chunks files errors count_file
           count_error length].
    + specialize (H7 eq_refl). repeat split; try assumption; try lia.
    + repeat split; try assumption; try lia.
  - apply Z.ltb_ge in Hsize.
    unfold walk_bind at 1, lift. cbn [service stats].
    destruct (addToKnowledgeBase_cases
                embed fileContent
                {| source := relativePath file;
                   type := determineFileType (extension file) |}
                (service run)) as [[_ E]|(e & He & E)]; rewrite E; cbv beta iota.
    + unfold update_stats. intros Hrun; injection Hrun as <- <-.
      cbn [service stats].
      split; [reflexivity|]. exists []. rewrite app_nil_r. cbn.
      repeat split; try lia. constructor.
    + unfold walk_bind, update_stats. intros Hrun; injection Hrun as <- <-.
      cbn [service stats knowledgeBase disk].
      split; [reflexivity|]. eexists. split; [reflexivity|]. cbn.
      repeat split; try lia.
      constructor; [|constructor]. exists file. split; [left; reflexivity|].
      exists fileContent. repeat split; try assumption.
      left. repeat split. exact Hsize.
Qed.

Lemma for_each_accounted (read : list Candidate) :
  forall run,
    fst (for_each process_file read run) = Return tt
    /\ accounted read run (snd (for_each process_file read run)).
Proof.
  induction read as [|file rest IH]; intros run; cbn [for_each].
  - split; [reflexivity | apply accounted_refl].
  - unfold walk_bind.
    pose proof (process_file_returns embed file run) as Hr.
    pose proof (process_file_accounted file run) as Ha.
    destruct (process_file file run) as [[[]|e] run1]; [|discriminate].
    destruct (IH run1) as [Hr' Ha']. split; [exact Hr'|].
    apply (accounted_trans [file] rest run run1); assumption.
Qed.

Lemma follow_accounted (plan : Plan) (run : Run) :
  fst (follow plan run)
  = match snd plan with Some error => Throw error | None => Return tt end
  /\ accounted (fst plan) run (snd (follow plan run)).
Proof.
  unfold follow, walk_bind.
  destruct (for_each_accounted (fst plan) run) as [Hr Ha].
  destruct (for_each process_file (fst plan) run) as [[[]|e] run1]; [|discriminate].
  destruct (snd plan); split; try reflexivity; exact Ha.
Qed.

End WalkAccounting.

Section RepositoryFacts.

Variable embed : jsstring -> option (list float).
Variable path_extname : jsstring -> jsstring.
Variable toLowerCase : jsstring -> jsstring.
Variable path_join : jsstring -> jsstring -> jsstring.

Local Abbreviation addToKnowledgeBase := (addToKnowledgeBase embed).
Local Abbreviation add_parts := (add_parts embed).
Local Abbreviation ingest_changed_file :=
  (ingest_changed_file embed path_extname toLowerCase).
Local Abbreviation add_chunks := (add_chunks embed).
Local Abbreviation process_file := (process_file embed).
Local Abbreviation processDirectory :=
  (processDirectory embed path_extname toLowerCase path_join).
Local Abbreviation processRepository :=
  (processRepository embed path_extname toLowerCase path_join).
Local Abbreviation plan_directory := (plan_directory path_extname toLowerCase path_join).
Local Abbreviation follow := (follow embed).
Local Abbreviation chunk_of := (chunk_of embed).
Local Abbreviation accounted := (accounted embed).

Lemma processRepository_as_plan (repoPath : jsstring)
      (listing : Exception + list Dirent) (st : State) :
  processRepository repoPath listing st
  = match follow (plan_directory repoPath [] listing)
                 {| service := st; stats := no_stats |} with
    | (Return _, run) => (Return (stats run), service run)
    | (Throw error, run) => (Throw error, service run)
    end.
Proof.
  unfold processRepository.
  rewrite (processDirectory_as_plan embed path_extname toLowerCase path_join).
  reflexivity.
Qed.

Lemma processRepository_accounted (repoPath : jsstring)
      (listing : Exception + list Dirent) (st : State) :
  exists run,
    accounted (fst (plan_directory repoPath [] listing))
              {| service := st; stats := no_stats |} run
    /\ processRepository repoPath listing st
       = (match snd (plan_directory repoPath [] listing) with
          | Some error => Throw error
          | None => Return (stats run)
          end, service run).
Proof.
  rewrite processRepository_as_plan.
  destruct (follow_accounted embed (plan_directory repoPath [] listing)
                             {| service := st; stats := no_stats |}) as [Hr Ha].
  destruct (follow (plan_directory repoPath [] listing)
                   {| service := st; stats := no_stats |}) as [outcome run].
  exists run. split; [exact Ha|]. cbn [fst snd] in Hr. rewrite Hr.
  destruct (snd (plan_directory repoPath [] listing)); reflexivity.
Qed.

(** X16. The walk of [processRepository] is a plain pass over a list: it
    reads, in order, the files of the tree that are outside the skipped
    directories and the excluded locations and have a supported extension,
    up to the first directory that cannot be listed, whose error it then
    throws. *)
Theorem processRepository_follows_plan (repoPath : jsstring)
        (listing : Exception + list Dirent) (st : State) :
  processRepository repoPath listing st
  = match follow (plan_directory repoPath [] listing)
                 {| service := st; stats := no_stats |} with
    | (Return _, run) => (Return (stats run), service run)
    | (Throw error, run) => (Throw error, service run)
    end.
Proof.
  unfold processRepository. unfold Repository.processDirectory.
  destruct listing as [error|entries]; cbn [plan_directory].
  - reflexivity.
  - rewrite (for_each_follows embed _ (plan_entry path_extname toLowerCase path_join
                                                  repoPath [])).
    + reflexivity.
    + apply Forall_forall. intros entry _ run.
      apply process_entry_follows_plan.
Qed.

(** X17. [processRepository] throws exactly when its walk reaches a
    directory that cannot be listed, and then with the error of the first
    such directory; a file that cannot be read or embedded is counted in
    [stats.errors] and the walk goes on. *)
Theorem processRepository_throws_iff (repoPath : jsstring)
        (listing : Exception + list Dirent) (st : State) (error : Exception) :
  fst (processRepository repoPath listing st) = Throw error
  <-> snd (plan_directory repoPath [] listing) = Some error.
Proof.
  destruct (processRepository_accounted repoPath listing st) as (run & _ & ->).
  cbn [fst]. destruct (snd (plan_directory repoPath [] listing)) as [e|].
  - split; intros H; injection H as ->; reflexivity.
  - split; discriminate.
Qed.

(** X18. The summary [processRepository] prints adds up: the store grew by
    [stats.chunks] chunks, every file of the plan was counted once, in
    [stats.files] or in [stats.errors], and every file counted in
    [stats.files] gave at least one chunk. *)
Theorem processRepository_accounting (repoPath : jsstring)
        (listing : Exception + list Dirent) (st st' : State) (summary : Stats) :
  processRepository repoPath listing st = (Return summary, st') ->
  length (knowledgeBase st') = (length (knowledgeBase st) + chunks summary)%nat
  /\ (files summary + errors summary
      = length (fst (plan_directory repoPath [] listing)))%nat
  /\ (files summary <= chunks summary)%nat.
Proof.
  destruct (processRepository_accounted repoPath listing st) as (run & Ha & ->).
  destruct (snd (plan_directory repoPath [] listing)); [discriminate|].
  intros H. injection H as <- <-.
  destruct Ha as (_ & added & Hk & _ & Hc & Hs & Hf).
  cbn [service stats no_stats chunks files errors] in *.
  rewrite Hk, length_app. lia.
Qed.

(** X19. Whether it returns or throws, [processRepository] leaves the disk
    as it was and only appends to the store, and every chunk it appends was
    made from a file of its plan: the file's content or one of its chunks,
    with the embedding of that content, the type of the file's extension
    and the relative path (and part) as source. *)
Theorem processRepository_appends_from_plan (repoPath : jsstring)
        (listing : Exception + list Dirent) (st : State) :
  disk (snd (processRepository repoPath listing st)) = disk st
  /\ exists added,
      knowledgeBase (snd (processRepository repoPath listing st))
      = knowledgeBase st ++ added
      /\ Forall (fun doc => exists file,
                     In file (fst (plan_directory repoPath [] listing))
                     /\ chunk_of (disk st) file doc)
                added.
Proof.
  destruct (processRepository_accounted repoPath listing st) as (run & Ha & ->).
  destruct Ha as (Hd & added & Hk & Hp & _). cbn [snd service] in *.
  split; [exact Hd|]. exists added. split; assumption.
Qed.

Lemma add_chunks_as_add_parts (relativePath fileType : jsstring) (total : nat)
      (parts : list jsstring) :
  forall i run,
    fst (add_chunks relativePath fileType total i parts run)
    = fst (add_parts relativePath fileType total i parts (service run))
    /\ service (snd (add_chunks relativePath fileType total i parts run))
       = snd (add_parts relativePath fileType total i parts (service run)).
Proof.
  induction parts as [|part rest IH]; intros i run; cbn [add_chunks add_parts].
  - split; reflexivity.
  - unfold walk_bind at 1 3, lift, bind.
    destruct (addToKnowledgeBase
                part {| source := part_source relativePath (i + 1) total;
                        type := fileType |} (service run)) as [[[]|e] st1].
    + unfold walk_bind, update_stats. cbv beta iota.
      apply (IH (S i) {| service := st1; stats := count_chunk (stats run) |}).
    + split; reflexivity.
Qed.

(** X20. The initial build and the incremental update make the same chunks
    of a file: reading a file in the walk of [processRepository] leaves the
    store and the disk as the [try] block of [updateKnowledgeBase] does for
    the same path, content and extension. *)
Theorem process_file_agrees_with_update (fullPath filePath : jsstring) (run : Run) :
  array_includes ingested_extensions (toLowerCase (path_extname filePath)) = true ->
  let file := {| Repository.fullPath := fullPath;
                 relativePath := filePath;
                 extension := toLowerCase (path_extname filePath) |} in
  knowledgeBase (service (snd (process_file file run)))
  = knowledgeBase (snd (ingest_changed_file filePath fullPath (service run)))
  /\ disk (service (snd (process_file file run)))
     = disk (snd (ingest_changed_file filePath fullPath (service run))).
Proof.
  intros Hext file.
  assert (H : service (snd (process_file file run))
              = snd (ingest_changed_file filePath fullPath (service run))).
  { unfold process_file, walk_try, ingest_changed_file.
    unfold walk_bind at 1, lift, bind at 1, readFileSync. cbn [Repository.fullPath file].
    destruct (node (disk (service run)) fullPath) as [[fileContent|]|];
      cbv beta iota; try reflexivity.
    rewrite Hext.
    unfold walk_bind at 1, update_stats at 1. cbv beta iota. cbn [service stats].
    unfold walk_bind at 1, update_stats at 1. cbv beta iota. cbn [service stats].
    unfold walk_bind at 1, bind at 1. cbn [relativePath extension file].
    destruct (MAX_CHUNK_SIZE <? Z.of_nat (length fileContent))%Z.
    - unfold walk_bind at 1, update_stats at 1. cbv beta iota. cbn [service stats].
      match goal with
      | |- context [add_chunks ?rel ?ft ?total ?i ?parts ?r] =>
          destruct (add_chunks_as_add_parts rel ft total parts i r) as [Ho Hs];
          destruct (add_chunks rel ft total i parts r) as [o run1]
      end.
      cbn [service stats fst snd] in Ho, Hs.
      destruct (add_parts filePath
                  (determineFileType (toLowerCase (path_extname filePath)))
                  (length (chunkText fileContent MAX_CHUNK_SIZE)) 0
                  (chunkText fileContent MAX_CHUNK_SIZE) (service run)) as [o' st1].
      cbn [fst snd] in Ho, Hs. subst o' st1.
      destruct o as [[]|e]; reflexivity.
    - unfold walk_bind, lift, update_stats. cbn [service stats].
      destruct (addToKnowledgeBase
                  fileContent
                  {| source := filePath;
                     type := determineFileType (toLowerCase (path_extname filePath)) |}
                  (service run)) as [[[]|e] st1]; reflexivity. }
  rewrite H. split; reflexivity.
Qed.

End RepositoryFacts.

Example build_of_tree :
  let result :=
    processRepository Runtime.embed Runtime.extname Runtime.toLowerCase join_segments
                      (lit "repo") tree (world [] Repository.nodes) in
  (map (fun doc => source (metadata doc)) (knowledgeBase (snd result)),
   map relativePath
       (fst (plan_directory Runtime.extname Runtime.toLowerCase join_segments
                            (lit "repo") [] tree)))
  = ([lit "a.ts"; lit "b.md"], [lit "a.ts"; lit "b.md"; lit "src/empty.js"]).
Proof. vm_compute. reflexivity. Qed.

Lemma processRepository_accounting_witness :
  let result :=
    processRepository Runtime.embed Runtime.extname Runtime.toLowerCase join_segments
                      (lit "repo") tree (world [] Repository.nodes) in
  result = (Return summary, snd result)
  /\ length (knowledgeBase (snd result))
     = (length (knowledgeBase (world [] Repository.nodes)) + chunks summary)%nat
  /\ (files summary + errors summary
      = length (fst (plan_directory Runtime.extname Runtime.toLowerCase join_segments
                                    (lit "repo") [] tree)))%nat
  /\ (files summary <= chunks summary)%nat.
Proof.
  intros result.
  assert (H : result = (Return summary, snd result)) by (vm_compute; reflexivity).
  split; [exact H|].
  exact (processRepository_accounting
           Runtime.embed Runtime.extname Runtime.toLowerCase join_segments
           (lit "repo") tree (world [] Repository.nodes) (snd result) summary H).
Defined.

Lemma process_file_agrees_with_update_witness :
  let file := {| fullPath := lit "repo/src/add.ts";
                 relativePath := lit "src/add.ts";
                 extension := lit ".ts" |} in
  let run := {| service := world [readme] repository; stats := no_stats |} in
  knowledgeBase (service (snd (process_file Runtime.embed file run)))
  = knowledgeBase
      (snd (ingest_changed_file Runtime.embed Runtime.extname Runtime.toLowerCase
                                (lit "src/add.ts") (lit "repo/src/add.ts")
                                (service run)))
  /\ disk (service (snd (process_file Runtime.embed file run)))
     = disk (snd (ingest_changed_file Runtime.embed Runtime.extname Runtime.toLowerCase
                                      (lit "src/add.ts") (lit "repo/src/add.ts")
                                      (service run))).
Proof.
  assert (H : array_includes ingested_extensions
                (Runtime.toLowerCase (Runtime.extname (lit "src/add.ts"))) = true)
    by (vm_compute; reflexivity).
  exact (process_file_agrees_with_update
           Runtime.embed Runtime.extname Runtime.toLowerCase
           (lit "repo/src/add.ts") (lit "src/add.ts")
           {| service := world [readme] repository; stats := no_stats |} H).
Defined.

(* ================================================================== *)
(** * Start-up: restore the snapshot or rebuild it *)
(* ================================================================== *)

Section InitializationFacts.

Variable embed : jsstring -> option (list float).
Variable JSON_stringify : list DocumentChunk -> jsstring.
Variable JSON_parse : jsstring -> option (list DocumentChunk).
Variable path_extname : jsstring -> jsstring.
Variable toLowerCase : jsstring -> jsstring.
Variable path_join : jsstring -> jsstring -> jsstring.
Variable path_dirname : jsstring -> jsstring.
Variable mkdir : FileSystem -> jsstring -> Exception + FileSystem.

Local Abbreviation saveKnowledgeBase := (saveKnowledgeBase JSON_stringify).
Local Abbreviation loadKnowledgeBase := (loadKnowledgeBase JSON_parse).
Local Abbreviation processRepository :=
  (processRepository embed path_extname toLowerCase path_join).
Local Abbreviation plan_directory := (plan_directory path_extname toLowerCase path_join).
Local Abbreviation chunk_of := (chunk_of embed).
Local Abbreviation mkdirSync := (mkdirSync mkdir).
Local Abbreviation restore := (restore JSON_parse).
Local Abbreviation rebuild :=
  (rebuild embed JSON_stringify path_extname toLowerCase path_join path_dirname mkdir).
Local Abbreviation initializeKnowledgeBase :=
  (initializeKnowledgeBase embed JSON_stringify JSON_parse path_extname toLowerCase
                           path_join path_dirname mkdir).
Local Abbreviation unusable := (unusable JSON_parse).

Lemma restore_result (knowledgeBasePath : jsstring) (st : State) :
  restore knowledgeBasePath st
  = match node (disk st) knowledgeBasePath with
    | Some (File data) =>
        match JSON_parse data with
        | Some kb =>
            (Return true,
             {| knowledgeBase := kb; disk := disk st; console := console st |})
        | None => (Return false, st)
        end
    | _ => (Return false, st)
    end.
Proof.
  unfold restore, bind at 1, existsSync, exists_on.
  destruct (node (disk st) knowledgeBasePath) as [[data|]|] eqn:Hnode.
  - unfold try_catch, bind.
    rewrite (loadKnowledgeBase_present JSON_parse knowledgeBasePath data st Hnode).
    destruct (JSON_parse data) as [kb|]; reflexivity.
  - unfold try_catch, bind, loadKnowledgeBase, bind, existsSync, exists_on.
    rewrite Hnode. unfold readFileSync. rewrite Hnode. reflexivity.
  - reflexivity.
Qed.

Lemma restore_cases (knowledgeBasePath : jsstring) (st : State) :
  (exists data kb,
      node (disk st) knowledgeBasePath = Some (File data)
      /\ JSON_parse data = Some kb
      /\ restore knowledgeBasePath st
         = (Return true,
            {| knowledgeBase := kb; disk := disk st; console := console st |}))
  \/ (unusable (disk st) knowledgeBasePath
      /\ restore knowledgeBasePath st = (Return false, st)).
Proof.
  rewrite restore_result. unfold unusable.
  destruct (node (disk st) knowledgeBasePath) as [[data|]|] eqn:Hnode.
  - destruct (JSON_parse data) as [kb|] eqn:Hparse.
    + left. exists data, kb. repeat split. exact Hparse.
    + right. split; [|reflexivity]. intros data' H. injection H as <-. exact Hparse.
  - right. split; [intros data H; discriminate | reflexivity].
  - right. split; [intros data H; discriminate | reflexivity].
Qed.

Lemma rebuild_returns (repoPath knowledgeBasePath : jsstring)
      (listing : Exception + list Dirent) (st : State) :
  fst (rebuild repoPath knowledgeBasePath listing st) = Return tt.
Proof.
  unfold rebuild, bind at 1, existsSync.
  destruct (exists_on (disk st) repoPath); [|reflexivity].
  unfold try_catch.
  match goal with
  | |- context [match ?m st with _ => _ end] => destruct (m st) as [[[]|e] st1]
  end; reflexivity.
Qed.

(** X21. [initializeKnowledgeBase] never throws: a snapshot that cannot be
    read or parsed, a directory that cannot be listed, a data directory
    that cannot be made and a snapshot that cannot be written are all
    caught. *)
Theorem initializeKnowledgeBase_returns (repoPath knowledgeBasePath : jsstring)
        (listing : Exception + list Dirent) (st : State) :
  fst (initializeKnowledgeBase repoPath knowledgeBasePath listing st) = Return tt.
Proof.
  unfold initializeKnowledgeBase, bind.
  destruct (restore_cases knowledgeBasePath st)
    as [(data & kb & _ & _ & ->)|[_ ->]]; [reflexivity|].
  apply rebuild_returns.
Qed.

(** X22. When the snapshot path holds a file that parses, start-up replaces
    the store by the parsed one and stops there: the repository is not
    read and the disk is not written, whatever store the service held. *)
Theorem initializeKnowledgeBase_restores (repoPath knowledgeBasePath : jsstring)
        (listing : Exception + list Dirent) (st : State)
        (data : jsstring) (kb : list DocumentChunk) :
  node (disk st) knowledgeBasePath = Some (File data) ->
  JSON_parse data = Some kb ->
  fst (initializeKnowledgeBase repoPath knowledgeBasePath listing st) = Return tt
  /\ knowledgeBase (snd (initializeKnowledgeBase repoPath knowledgeBasePath listing st))
     = kb
  /\ disk (snd (initializeKnowledgeBase repoPath knowledgeBasePath listing st))
     = disk st.
Proof.
  intros Hnode Hparse. unfold initializeKnowledgeBase, bind.
  destruct (restore_cases knowledgeBasePath st)
    as [(data' & kb' & Hnode' & Hparse' & ->)|[Hun _]].
  - assert (data' = data) by congruence. subst data'.
    assert (kb' = kb) by congruence. subst kb'. repeat split.
  - rewrite (Hun data Hnode) in Hparse. discriminate.
Qed.

Lemma rebuild_result (repoPath knowledgeBasePath : jsstring)
      (listing : Exception + list Dirent) (st : State) :
  exists run,
    accounted embed (fst (plan_directory repoPath [] listing))
              {| service := st; stats := no_stats |} run
    /\ ((exists_on (disk st) repoPath = false
         /\ knowledgeBase (snd (rebuild repoPath knowledgeBasePath listing st))
            = knowledgeBase st
         /\ disk (snd (rebuild repoPath knowledgeBasePath listing st)) = disk st)
        \/ (exists_on (disk st) repoPath = true
            /\ knowledgeBase (snd (rebuild repoPath knowledgeBasePath listing st))
               = knowledgeBase (service run)
            /\ (snd (plan_directory repoPath [] listing) = None ->
                exists_on (disk st) (path_dirname knowledgeBasePath) = true ->
                snd (rebuild repoPath knowledgeBasePath listing st)
                = snd (saveKnowledgeBase knowledgeBasePath (service run))))).
Proof.
  destruct (processRepository_accounted embed path_extname toLowerCase path_join
                                        repoPath listing st) as (run & Ha & E).
  exists run. split; [exact Ha|].
  destruct (rebuild repoPath knowledgeBasePath listing st) as [o st'] eqn:Hrun.
  cbn [snd]. revert Hrun.
  unfold rebuild, bind at 1, existsSync.
  destruct (exists_on (disk st) repoPath) eqn:Hrepo.
  - intros Hrun. right. split; [reflexivity|]. revert Hrun.
    unfold try_catch, bind at 1. rewrite E.
    destruct Ha as (Hd & _). cbn [service] in Hd.
    destruct (snd (plan_directory repoPath [] listing)) as [error|].
    + unfold ret. intros Hrun. injection Hrun as <- <-.
      split; [reflexivity | discriminate].
    + unfold bind at 1, existsSync. rewrite Hd.
      destruct (exists_on (disk st) (path_dirname knowledgeBasePath)) eqn:Hdir;
        cbn [negb]; unfold bind at 1.
      * unfold ret at 1.
        pose proof (saveKnowledgeBase_keeps_store
                      JSON_stringify knowledgeBasePath (service run)) as Hk.
        destruct (saveKnowledgeBase knowledgeBasePath (service run)) as [[[]|e] st2];
          unfold ret; intros Hrun; injection Hrun as <- <-;
          (split; [exact Hk | reflexivity]).
      * unfold mkdirSync at 1.
        destruct (mkdir (disk (service run)) (path_dirname knowledgeBasePath))
          as [error|fs].
        -- unfold ret. intros Hrun. injection Hrun as <- <-.
           split; [reflexivity | discriminate].
        -- match goal with
           | |- context [saveKnowledgeBase knowledgeBasePath ?s] =>
               pose proof (saveKnowledgeBase_keeps_store
                             JSON_stringify knowledgeBasePath s) as Hk;
               destruct (saveKnowledgeBase knowledgeBasePath s) as [[[]|e] st2]
           end; unfold ret; intros Hrun; injection Hrun as <- <-;
             (split; [exact Hk | discriminate]).
  - unfold console_write. intros Hrun. injection Hrun as <- <-.
    left. repeat split.
Qed.

(** X23. When the snapshot cannot be restored (nothing at the path, a
    directory, or a file that does not parse), start-up keeps the store the
    service held and appends to it what the walk over the repository makes;
    nothing is appended when the repository path does not exist. *)
Theorem initializeKnowledgeBase_rebuilds (repoPath knowledgeBasePath : jsstring)
        (listing : Exception + list Dirent) (st : State) :
  unusable (disk st) knowledgeBasePath ->
  exists added,
    knowledgeBase (snd (initializeKnowledgeBase repoPath knowledgeBasePath listing st))
    = knowledgeBase st ++ added
    /\ Forall (fun doc => exists file,
                   In file (fst (plan_directory repoPath [] listing))
                   /\ chunk_of (disk st) file doc)
              added
    /\ (exists_on (disk st) repoPath = false -> added = []).
Proof.
  intros Hun. unfold initializeKnowledgeBase, bind.
  destruct (restore_cases knowledgeBasePath st)
    as [(data & kb & Hnode & Hparse & _)|[_ ->]].
  { rewrite (Hun data Hnode) in Hparse. discriminate. }
  cbv beta iota.
  destruct (rebuild_result repoPath knowledgeBasePath listing st)
    as (run & Ha & [(Hrepo & Hk & _)|(Hrepo & Hk & _)]).
  - exists []. rewrite Hk, app_nil_r. repeat split. constructor.
  - destruct Ha as (_ & added & Hk' & Hp & _). cbn [service] in Hk', Hp.
    exists added. rewrite Hk, Hk'. repeat split; [exact Hp|].
    intros H. congruence.
Qed.

(** X24. Recovery from a snapshot that cannot be restored: when the
    repository is there, every directory of the walk can be listed, the
    data directory exists and the snapshot path can be written, start-up
    leaves on disk, at the snapshot path and nowhere else, the
    serialization of the store it ends with, provided that store is not
    empty. *)
Theorem initializeKnowledgeBase_writes_snapshot
        (repoPath knowledgeBasePath : jsstring)
        (listing : Exception + list Dirent) (st : State) :
  unusable (disk st) knowledgeBasePath ->
  exists_on (disk st) repoPath = true ->
  snd (plan_directory repoPath [] listing) = None ->
  exists_on (disk st) (path_dirname knowledgeBasePath) = true ->
  node (disk st) knowledgeBasePath <> Some Directory ->
  writable (disk st) knowledgeBasePath = true ->
  knowledgeBase (snd (initializeKnowledgeBase repoPath knowledgeBasePath listing st))
  <> [] ->
  disk (snd (initializeKnowledgeBase repoPath knowledgeBasePath listing st))
  = write_on (disk st) knowledgeBasePath
      (JSON_stringify
         (knowledgeBase
            (snd (initializeKnowledgeBase repoPath knowledgeBasePath listing st)))).
Proof.
  intros Hun Hrepo Hplan Hdir Hnode Hw.
  unfold initializeKnowledgeBase, bind.
  destruct (restore_cases knowledgeBasePath st)
    as [(data & kb & Hnode' & Hparse & _)|[_ ->]].
  { rewrite (Hun data Hnode') in Hparse. discriminate. }
  cbv beta iota.
  destruct (rebuild_result repoPath knowledgeBasePath listing st)
    as (run & Ha & [(Hrepo' & _)|(_ & Hk & Hsave)]); [congruence|].
  rewrite (Hsave Hplan Hdir), (saveKnowledgeBase_keeps_store JSON_stringify).
  intros Hne.
  destruct Ha as (Hd & _). cbn [service] in Hd.
  rewrite (saveKnowledgeBase_nonempty JSON_stringify knowledgeBasePath (service run));
    try (rewrite Hd; assumption); [|exact Hne].
  cbn [snd disk]. rewrite Hd. reflexivity.
Qed.

End InitializationFacts.

Lemma snapshot_unusable :
  unusable Runtime.parse (disk (world [] Startup.nodes)) (lit "data/knowledge.json").
Proof.
  intros data H. vm_compute in H. injection H as <-. vm_compute. reflexivity.
Defined.

Lemma initializeKnowledgeBase_restores_witness :
  let st := world [readme] [(snapshot, File (Runtime.stringify store))] in
  let result :=
    initializeKnowledgeBase
      Runtime.embed Runtime.stringify Runtime.parse Runtime.extname
      Runtime.toLowerCase join_segments Startup.dirname Startup.mkdir
      (lit "repo") snapshot tree st in
  fst result = Return tt
  /\ knowledgeBase (snd result) = store
  /\ disk (snd result) = disk st.
Proof.
  apply (initializeKnowledgeBase_restores
           Runtime.embed Runtime.stringify Runtime.parse Runtime.extname
           Runtime.toLowerCase join_segments Startup.dirname Startup.mkdir
           (lit "repo") snapshot tree
           (world [readme] [(snapshot, File (Runtime.stringify store))])
           (Runtime.stringify store) store).
  - vm_compute. reflexivity.
  - vm_compute. reflexivity.
Defined.

Lemma initializeKnowledgeBase_rebuilds_witness :
  exists added,
    knowledgeBase
      (snd (initializeKnowledgeBase
              Runtime.embed Runtime.stringify Runtime.parse Runtime.extname
              Runtime.toLowerCase join_segments Startup.dirname Startup.mkdir
              (lit "repo") (lit "data/knowledge.json") tree
              (world [] Startup.nodes)))
    = knowledgeBase (world [] Startup.nodes) ++ added
    /\ Forall (fun doc => exists file,
                   In file (fst (plan_directory Runtime.extname Runtime.toLowerCase
                                                join_segments (lit "repo") [] tree))
                   /\ chunk_of Runtime.embed (disk (world [] Startup.nodes)) file doc)
              added
    /\ (exists_on (disk (world [] Startup.nodes)) (lit "repo") = false -> added = []).
Proof.
  exact (initializeKnowledgeBase_rebuilds
           Runtime.embed Runtime.stringify Runtime.parse Runtime.extname
           Runtime.toLowerCase join_segments Startup.dirname Startup.mkdir
           (lit "repo") (lit "data/knowledge.json") tree (world [] Startup.nodes)
           snapshot_unusable).
Defined.

Lemma initializeKnowledgeBase_writes_snapshot_witness :
  let result :=
    initializeKnowledgeBase
      Runtime.embed Runtime.stringify Runtime.parse Runtime.extname
      Runtime.toLowerCase join_segments Startup.dirname Startup.mkdir
      (lit "repo") (lit "data/knowledge.json") tree (world [] Startup.nodes) in
  disk (snd result)
  = write_on (disk (world [] Startup.nodes)) (lit "data/knowledge.json")
             (Runtime.stringify (knowledgeBase (snd result))).
Proof.
  apply (initializeKnowledgeBase_writes_snapshot
           Runtime.embed Runtime.stringify Runtime.parse Runtime.extname
           Runtime.toLowerCase join_segments Startup.dirname Startup.mkdir
           (lit "repo") (lit "data/knowledge.json") tree (world [] Startup.nodes)
           snapshot_unusable).
  - vm_compute. reflexivity.
  - vm_compute. reflexivity.
  - vm_compute. reflexivity.
  - vm_compute. discriminate.
  - vm_compute. reflexivity.
  - assert (H : length (knowledgeBase
                          (snd (initializeKnowledgeBase
                                  Runtime.embed Runtime.stringify Runtime.parse
                                  Runtime.extname Runtime.toLowerCase join_segments
                                  Startup.dirname Startup.mkdir
                                  (lit "repo") (lit "data/knowledge.json") tree
                                  (world [] Startup.nodes)))) = 2%nat)
      by (vm_compute; reflexivity).
    intros Hnil. rewrite Hnil in H. discriminate H.
Defined.

(* ================================================================== *)
(** * The replies of the language model, taken apart *)
(* ================================================================== *)

Section SplitOn.

Variable sep : N.

Lemma split_on_not_nil (s : jsstring) : Replies.split_on sep s <> [].
Proof.
  destruct s as [|c s]; simpl; [discriminate|].
  destruct (c =? sep)%N; [discriminate|].
  destruct (Replies.split_on sep s); discriminate.
Qed.

Lemma split_on_no_sep (s : jsstring) :
  Forall (fun line => ~ In sep line) (Replies.split_on sep s).
Proof.
  induction s as [|c s IH]; simpl.
  - constructor; [intros [] | constructor].
  - destruct (c =? sep)%N eqn:E.
    + constructor; [intros [] | exact IH].
    + apply N.eqb_neq in E.
      destruct (Replies.split_on sep s) as [|l ls].
      * constructor; [|constructor]. intros [H|[]]. congruence.
      * inversion IH as [|? ? Hl Hls]; subst. constructor; [|exact Hls].
        intros [H|H]; [congruence | contradiction].
Qed.

(** [s.split(sep).join(sep)] is [s]. *)
Lemma join_split_on (s : jsstring) : join [sep] (Replies.split_on sep s) = s.
Proof.
  induction s as [|c s IH]; simpl; [reflexivity|].
  destruct (c =? sep)%N eqn:E.
  - apply N.eqb_eq in E. subst c.
    pose proof (split_on_not_nil s) as Hne.
    destruct (Replies.split_on sep s) as [|l ls]; [contradiction|].
    cbn [join app] in *. rewrite IH. reflexivity.
  - pose proof (split_on_not_nil s) as Hne.
    destruct (Replies.split_on sep s) as [|l ls]; [contradiction|].
    cbn [join] in *. destruct ls; cbn [app]; rewrite <- IH; reflexivity.
Qed.

Lemma split_on_first (x rest : jsstring) :
  ~ In sep x ->
  Replies.split_on sep (x ++ sep :: rest) = x :: Replies.split_on sep rest.
Proof.
  induction x as [|c x IH]; intros Hx; cbn [app Replies.split_on].
  - rewrite N.eqb_refl. reflexivity.
  - destruct (c =? sep)%N eqn:E.
    + apply N.eqb_eq in E. exfalso. apply Hx. left. congruence.
    + rewrite IH; [reflexivity|]. intros H. apply Hx. right. exact H.
Qed.

Lemma split_on_single (x : jsstring) :
  ~ In sep x -> Replies.split_on sep x = [x].
Proof.
  induction x as [|c x IH]; intros Hx; cbn [Replies.split_on].
  - reflexivity.
  - destruct (c =? sep)%N eqn:E.
    + apply N.eqb_eq in E. exfalso. apply Hx. left. congruence.
    + rewrite IH; [reflexivity|]. intros H. apply Hx. right. exact H.
Qed.

End SplitOn.

Lemma starts_with_Some (prefix s rest : jsstring) :
  starts_with prefix s = Some rest <-> s = prefix ++ rest.
Proof.
  revert s. induction prefix as [|p prefix IH]; intros s; simpl.
  - split; intros H; congruence.
  - destruct s as [|c s]; [split; discriminate|].
    destruct (p =? c)%N eqn:E.
    + apply N.eqb_eq in E. subst c. rewrite IH. split; intros H; congruence.
    + apply N.eqb_neq in E. split; [discriminate|]. intros H. congruence.
Qed.

Lemma replace_first_prefix (pattern replacement x : jsstring) :
  Replies.replace_first pattern replacement (pattern ++ x) = replacement ++ x.
Proof.
  assert (H : starts_with pattern (pattern ++ x) = Some x)
    by (apply starts_with_Some; reflexivity).
  destruct (pattern ++ x) as [|c s]; simpl; rewrite H; reflexivity.
Qed.

(** Removing the first occurrence of a pattern adds no code unit. *)
Lemma replace_first_In (pattern s : jsstring) (c : N) :
  In c (Replies.replace_first pattern [] s) -> In c s.
Proof.
  induction s as [|d s IH]; cbn [Replies.replace_first].
  - destruct (starts_with pattern []) as [rest|] eqn:E; [|intros []].
    apply starts_with_Some in E.
    symmetry in E. apply app_eq_nil in E. destruct E as [_ ->]. intros [].
  - destruct (starts_with pattern (d :: s)) as [rest|] eqn:E.
    + apply starts_with_Some in E. rewrite E. cbn [app]. intros H.
      apply in_or_app. right. exact H.
    + intros [H|H]; [left; exact H | right; apply IH; exact H].
Qed.

Lemma trim_In (s : jsstring) (c : N) : In c (trim s) -> In c s.
Proof.
  destruct (occurs_in_trim s) as (before & after & E). intros H.
  rewrite E. apply in_or_app. right. apply in_or_app. left. exact H.
Qed.

(** X25. The title [generatePullRequestContent] returns is one trimmed
    line and the body is trimmed, whatever text the model returned. *)
Theorem pull_request_content_clean (text : jsstring) :
  ~ In LF (Replies.title (Replies.pull_request_content text))
  /\ trim (Replies.title (Replies.pull_request_content text))
     = Replies.title (Replies.pull_request_content text)
  /\ trim (Replies.body (Replies.pull_request_content text))
     = Replies.body (Replies.pull_request_content text).
Proof.
  unfold Replies.pull_request_content.
  pose proof (split_on_no_sep LF text) as Hlines.
  destruct (Replies.split_on LF text) as [|first bodyLines]; cbn [Replies.title Replies.body].
  - repeat split. intros [].
  - inversion Hlines as [|? ? Hfirst _]; subst.
    split; [|split; apply trim_trim].
    intros H. apply Hfirst. eapply replace_first_In, trim_In. exact H.
Qed.

(** X26. The first line feed of the model's text separates title and
    body: the title is made of the text before it, the body is all the
    text after it, trimmed, with its own line feeds kept. *)
Theorem pull_request_content_splits_at_first_line (first rest : jsstring) :
  ~ In LF first ->
  Replies.pull_request_content (first ++ LF :: rest)
  = {| Replies.title := trim (Replies.replace_first (lit "Title: ") [] first);
       Replies.body := trim rest |}.
Proof.
  intros H. unfold Replies.pull_request_content.
  rewrite split_on_first by exact H. rewrite join_split_on. reflexivity.
Qed.

(** X27. For a text that begins with the label, as the prompt's reply is
    expected to, the title is the rest of the first line, trimmed; for a
    text of one line the body is empty. *)
Theorem pull_request_content_titled (x rest : jsstring) :
  ~ In LF x ->
  Replies.pull_request_content (lit "Title: " ++ x ++ LF :: rest)
  = {| Replies.title := trim x; Replies.body := trim rest |}
  /\ Replies.pull_request_content (lit "Title: " ++ x)
     = {| Replies.title := trim x; Replies.body := [] |}.
Proof.
  intros Hx.
  assert (Hline : ~ In LF (lit "Title: " ++ x)).
  { intros H. apply in_app_or in H. destruct H as [H|H]; [|contradiction].
    revert H. vm_compute. intuition discriminate. }
  split.
  - unfold Replies.pull_request_content.
    rewrite app_assoc, split_on_first by exact Hline.
    rewrite join_split_on, replace_first_prefix. reflexivity.
  - unfold Replies.pull_request_content.
    rewrite split_on_single by exact Hline.
    rewrite replace_first_prefix. reflexivity.
Qed.

(** X28. The paths [findRelevantDocs] reads off the model's text are
    non-empty, trimmed and without line feed. *)
Theorem reply_paths_clean (analysis : jsstring) :
  Forall (fun p => p <> [] /\ trim p = p /\ ~ In LF p) (Replies.reply_paths analysis).
Proof.
  unfold Replies.reply_paths. apply Forall_forall. intros p Hp.
  apply filter_In in Hp. destruct Hp as [Hp Hlen].
  apply in_map_iff in Hp. destruct Hp as (line & <- & Hline).
  split; [|split].
  - intros H. rewrite H in Hlen. discriminate.
  - apply trim_trim.
  - intros H. apply trim_In in H.
    pose proof (split_on_no_sep LF analysis) as Hno.
    rewrite Forall_forall in Hno. exact (Hno line Hline H).
Qed.

(** X29. Every entry [findRelevantDocs] returns is one of the given
    documents, the first with its path, or it has the empty content and a
    path no given document has: a path the model made up is returned, with
    nothing in it. *)
Theorem relevant_docs_known_or_empty (analysis : jsstring) (docs : list Replies.Doc) :
  Forall (fun r => In r docs
                   \/ (Replies.content r = []
                       /\ forall d, In d docs -> Replies.path d <> Replies.path r))
         (Replies.relevant_docs analysis docs).
Proof.
  unfold Replies.relevant_docs. apply Forall_forall. intros r Hr.
  apply in_map_iff in Hr. destruct Hr as (p & <- & _).
  unfold Replies.find_doc.
  destruct (find (fun d => jsstring_eqb (Replies.path d) p) docs) as [doc|] eqn:E.
  - left. apply find_some in E. destruct E as [Hin Hp].
    apply jsstring_eqb_eq in Hp. subst p. destruct doc. exact Hin.
  - right. cbn [Replies.content Replies.path]. split; [reflexivity|].
    intros d Hd Hp. pose proof (find_none _ _ E d Hd) as Hn. cbn beta in Hn.
    assert (Ht : jsstring_eqb (Replies.path d) p = true)
      by (apply jsstring_eqb_eq; exact Hp).
    congruence.
Qed.

Lemma pull_request_content_splits_at_first_line_witness :
  Replies.pull_request_content (lit "Docs: update guide" ++ LF :: lit " Body " ++ [LF])
  = {| Replies.title :=
         trim (Replies.replace_first (lit "Title: ") [] (lit "Docs: update guide"));
       Replies.body := trim (lit " Body " ++ [LF]) |}.
Proof.
  apply (pull_request_content_splits_at_first_line
           (lit "Docs: update guide") (lit " Body " ++ [LF])).
  vm_compute. intuition discriminate.
Defined.

Lemma pull_request_content_titled_witness :
  Replies.pull_request_content
    (lit "Title: " ++ lit " Update docs " ++ LF :: [LF] ++ lit "Body")
  = {| Replies.title := trim (lit " Update docs ");
       Replies.body := trim ([LF] ++ lit "Body") |}
  /\ Replies.pull_request_content (lit "Title: " ++ lit " Update docs ")
     = {| Replies.title := trim (lit " Update docs "); Replies.body := [] |}.
Proof.
  apply (pull_request_content_titled (lit " Update docs ") ([LF] ++ lit "Body")).
  vm_compute. intuition discriminate.
Defined.
